(** * lca_algebraic: the global-sensitivity demo, embedded and verified

    Source: [examples/global_sensitivity_demo.py].  The script assigns
    uncertainties to a share of the exchanges of a Brightway database
    ([add_exchange_uncertainty]), runs a Sobol analysis ([run_gsa]) and
    prints the ranked first-order indices ([print_top_parameters]).

    The embedding is shallow.  Python floats are IEEE-754 binary64 values
    ([spec_float] with [prec = 53], [emax = 1024]); the interpreter state the
    script touches (the module-level generator of [random], the parameter
    registry of [lca_algebraic], the Brightway databases) is one record
    threaded through a state-and-exception monad; exceptions keep the state
    reached when they were raised.  The Exchange objects the script holds
    while it runs are proxies in memory, local to the call; the loop that
    assigns into them threads them next to that record. *)

From Stdlib Require Import ZArith String Bool.
From Stdlib Require Import Floats.SpecFloat.
From stdpp Require Import base option list gmap strings sorting.

Local Open Scope Z_scope.

(** ** Binary64 arithmetic as Python uses it *)

Module F64.

Definition prec : Z := 53.
Definition emax : Z := 1024.

Definition mul : spec_float -> spec_float -> spec_float := SFmul prec emax.
Definition div : spec_float -> spec_float -> spec_float := SFdiv prec emax.
Definition eqb : spec_float -> spec_float -> bool := SFeqb.
Definition leb : spec_float -> spec_float -> bool := SFleb.
Definition ltb : spec_float -> spec_float -> bool := SFltb.
Definition add : spec_float -> spec_float -> spec_float := SFadd prec emax.
Definition sub : spec_float -> spec_float -> spec_float := SFsub prec emax.
Definition neg : spec_float -> spec_float := SFopp.

(** [float(k)] for a Python int [k]. *)
Definition of_Z (k : Z) : spec_float := binary_normalize prec emax k 0 false.

(** The float literals of the script: each is the binary64 value nearest
    to the decimal written in the source. *)
Definition lit_0_4 : spec_float := div (of_Z 4) (of_Z 10).
Definition lit_0_5 : spec_float := div (of_Z 1) (of_Z 2).
Definition lit_1_5 : spec_float := div (of_Z 3) (of_Z 2).


Definition is_finite (x : spec_float) : bool :=
  match x with S754_zero _ | S754_finite _ _ _ => true | _ => false end.

(** Integral part of a finite float, rounded toward zero. *)
Definition trunc (s : bool) (m : positive) (e : Z) : Z :=
  cond_Zopp s (Z.shiftl (Z.pos m) e).

End F64.

Abbreviation float := spec_float.

(** ** Exceptions and the interpreter state *)

Inductive exn : Type :=
  | ValueError
  | OverflowError
  | ReferenceError
  | ConfigurationError
  | DuplicateParameterError.

#[global] Instance exn_eq_dec : EqDecision exn.
Proof. solve_decision. Defined.

Inductive outcome (A : Type) : Type :=
  | Ok (a : A)
  | Raise (e : exn).
Arguments Ok {A} a.
Arguments Raise {A} e.

(** What the [amount] slot of an exchange, or an argument of
    [newFloatParam], can hold: a number, a parameter (a sympy symbol), or
    the symbolic product that [c * symbol] builds.  Numbers are floats; a
    Python int amount such as the [2] of [{bg1: 2}] is read as [2.0], the
    value it takes as soon as the loop multiplies it by [0.5]. *)
Inductive value : Type :=
  | VNum (x : float)
  | VParam (name : string)
  | VMul (c : float) (v : value).

(** [c * val] with [c] a float literal. *)
Definition py_mul (c : float) (val : value) : value :=
  match val with
  | VNum x => VNum (F64.mul c x)
  | _ => VMul c val
  end.

(** [int(x)] on a float: truncation toward zero; [int(nan)] raises
    ValueError and [int(inf)] OverflowError. *)
Definition py_int (x : float) : outcome Z :=
  match x with
  | S754_zero _ => Ok 0
  | S754_finite s m e => Ok (F64.trunc s m e)
  | S754_infinity _ => Raise OverflowError
  | S754_nan => Raise ValueError
  end.

(** Modelled from the spec: [agb.params.DistributionType] is declared in
    the library, outside the script; the spec's data model lists the
    families Uniform, Triangle, Normal and Discrete. *)
Inductive DistributionType : Type := UNIFORM | TRIANGLE | NORMAL | DISCRETE.

#[global] Instance DistributionType_eq_dec : EqDecision DistributionType.
Proof. solve_decision. Defined.

(** Modelled from the spec: the Parameter of the spec's data model,
    [{name, distribution, low, high, default}]; the class itself (ParamDef
    in the library) is outside the script. *)
Record ParamDef : Type := mkParamDef {
  p_name : string;
  p_distribution : DistributionType;
  p_low : float;
  p_high : float;
  p_default : float
}.

(** A Brightway exchange is a dict; the script reads its keys ["type"],
    ["amount"] and ["input"] (a key [(database, code)]). *)
Record Exchange : Type := mkExchange {
  exc_input : string * string;
  exc_type : string;
  exc_amount : value
}.

Record Activity : Type := mkActivity {
  act_code : string;
  act_exchanges : list Exchange
}.

Abbreviation Database := (list Activity).

(** The Exchange objects the comprehension yields are identified by their
    position: index of the activity in the iteration, then index in
    [act.exchanges()]. *)
Abbreviation ExcRef := (nat * nat)%type.

Record World : Type := mkWorld {
  rng : list nat;
  registry : gmap string ParamDef;
  databases : gmap string Database
}.

Definition set_rng (g : list nat) (w : World) : World :=
  mkWorld g (registry w) (databases w).
Definition set_registry (r : gmap string ParamDef) (w : World) : World :=
  mkWorld (rng w) r (databases w).

(** ** The monad of the script: state and exceptions *)

Definition M (A : Type) : Type := World -> outcome A * World.

#[global] Instance M_ret : MRet M := fun A a w => (Ok a, w).
#[global] Instance M_bind : MBind M := fun A B f m w =>
  match m w with
  | (Ok a, w') => f a w'
  | (Raise e, w') => (Raise e, w')
  end.

Definition raise {A} (e : exn) : M A := fun w => (Raise e, w).
Definition lift {A} (o : outcome A) : M A := fun w => (o, w).

(** [for x in l: body(x)] *)
Fixpoint for_each {A} (l : list A) (body : A -> M unit) : M unit :=
  match l with
  | [] => mret tt
  | x :: l' => body x ≫= λ _, for_each l' body
  end.

(** ** The libraries the script calls *)

(** [bw.Database(db_name)]: the activities stored under that name; a name
    that was never written iterates as an empty database.  The list kept
    under a name is the sequence in which [for act in db] yields the
    activities.  Brightway promises no order for it (its SQLite backend
    asks for the rows in random order), so the order is hidden state of
    the database, next to its content: two states that hold the same
    activities in another order are two states. *)
Definition stored (db_name : string) (w : World) : Database :=
  default [] (databases w !! db_name).

Definition bw_Database (db_name : string) : M Database :=
  fun w => (Ok (stored db_name w), w).

Definition enumerate {A} (l : list A) : list (nat * A) := imap pair l.

(** The exchange at a position of a list of activities. *)
Definition lookup_exc (db : Database) (exc : ExcRef) : option Exchange :=
  db !! exc.1 ≫= λ act, act_exchanges act !! exc.2.

(** What [act.exchanges()] yields are Exchange objects: proxies, each a
    copy in memory of the row it was loaded from.  Reading [exc[key]] reads
    the proxy and [exc[key] = v] assigns into the proxy; the row in the
    database is written by [exc.save()] alone, which the script never calls.
    The proxies of one iteration of the database are kept in the shape of
    the database they were loaded from: [objs], a list of activities of
    their own, starts as a copy of the rows. *)

(** [exc[key]] on the proxy behind a reference.  A position that holds no
    exchange raises ReferenceError; the positions the comprehension yields
    always hold one ([add_exchange_uncertainty_raises] below). *)
Definition exc_getitem (objs : Database) (exc : ExcRef) : M Exchange :=
  fun w =>
    match lookup_exc objs exc with
    | Some e => (Ok e, w)
    | None => (Raise ReferenceError, w)
    end.

(** [exc["amount"] = v]: the proxy is updated in place, and nothing else. *)
Definition with_amount (v : value) (e : Exchange) : Exchange :=
  mkExchange (exc_input e) (exc_type e) v.

Definition act_alter (j : nat) (f : Exchange -> Exchange) (act : Activity) : Activity :=
  mkActivity (act_code act) (alter f j (act_exchanges act)).

Definition db_set_amount (exc : ExcRef) (v : value) (db : Database) : Database :=
  alter (act_alter exc.2 (with_amount v)) exc.1 db.

Definition exc_set_amount (exc : ExcRef) (v : value) (objs : Database) : Database :=
  db_set_amount exc v objs.

(** The module-level generator of [random]: its hidden state is the
    sequence of raw draws it will deliver next (0 once exhausted);
    [randbelow n] consumes one draw. *)
Definition randbelow (n : nat) : M nat :=
  fun w =>
    match rng w with
    | [] => (Ok 0%nat, w)
    | r :: g => (Ok (r mod n)%nat, set_rng g w)
    end.

(** [random.sample(population, k)] of the Python standard library, by its
    pool algorithm: [k] times, draw a position [j] of the live pool, emit
    [pool[j]] and move the last live element into slot [j].  A [k] outside
    [0..len(population)] raises ValueError before anything is drawn.  (For
    large populations CPython records the chosen positions in a set
    instead; either way the result is [k] elements of the population at
    pairwise distinct positions, which is all the proofs below use.) *)
Fixpoint sample_pool {A} (pool : list A) (k : nat) : M (list A) :=
  match k with
  | O => mret []
  | S k' =>
      j ← randbelow (length pool);
      match pool !! j, last pool with
      | Some x, Some y =>
          result ← sample_pool (take (length pool - 1) (<[j := y]> pool)) k';
          mret (x :: result)
      | _, _ => mret []
      end
  end.

Definition random_sample {A} (population : list A) (k : Z) : M (list A) :=
  if decide (0 ≤ k ≤ Z.of_nat (length population))
  then sample_pool population (Z.to_nat k)
  else raise ValueError.

(** Modelled from the spec: [agb.newFloatParam] belongs to the library, which
    is outside the script.  Per the spec's Parameter Registry, a parameter
    is created only with [low <= default <= high], anything else fails with
    ConfigurationError; redefining a registered name fails with
    DuplicateParameterError and leaves the registry as it was.  The bounds
    of the Parameter are floats, so a symbolic argument is a violating
    input as well; the datum is checked before the registry is consulted. *)
Definition newFloatParam (name : string) (default min max : value)
    (distrib : DistributionType) : M ParamDef :=
  fun w =>
    match default, min, max with
    | VNum d, VNum lo, VNum hi =>
        if F64.leb lo d && F64.leb d hi then
          match registry w !! name with
          | Some _ => (Raise DuplicateParameterError, w)
          | None =>
              let param := mkParamDef name distrib lo hi d in
              (Ok param, set_registry (<[name := param]> (registry w)) w)
          end
        else (Raise ConfigurationError, w)
    | _, _, _ => (Raise ConfigurationError, w)
    end.

(** ** The script *)

Definition BG_DB : string := "bg".
Definition FG_DB : string := "fg".

(** The comprehension
    [[exc for act in db for exc in act.exchanges() if exc["type"] != "production"]]. *)
Definition exchs_of (db : Database) : list ExcRef :=
  '(i, act) ← enumerate db;
  '(j, exc) ← enumerate (act_exchanges act);
  if decide (exc_type exc ≠ "production") then [(i, j)] else [].

(** [f"p_{exc['input'][1]}"] *)
Definition param_name (e : Exchange) : string := "p_" +:+ (exc_input e).2.

(** The body of the [for exc in selected] loop, lines 63 to 71, on the
    proxies [objs]: it returns them with the assignment of line 71 made. *)
Definition assign_uncertainty (exc : ExcRef) (objs : Database) : M Database :=
  e ← exc_getitem objs exc;
  let val := exc_amount e in
  param ← newFloatParam (param_name e) val
             (py_mul F64.lit_0_5 val) (py_mul F64.lit_1_5 val) TRIANGLE;
  mret (exc_set_amount exc (VParam (p_name param)) objs).

(** The loop [for exc in selected].  A turn that raises leaves the loop
    with the proxies as the turns before it made them: the exception of
    [newFloatParam] arrives before line 71 is reached. *)
Fixpoint assign_loop (selected : list ExcRef) (objs : Database) (w : World)
    : outcome unit * Database * World :=
  match selected with
  | [] => (Ok tt, objs, w)
  | exc :: rest =>
      match assign_uncertainty exc objs w with
      | (Ok objs', w') => assign_loop rest objs' w'
      | (Raise e, w') => (Raise e, objs, w')
      end
  end.

(** When the function is left, by [return] or by an exception, its proxies
    are unreferenced: what remains is the interpreter state. *)
Definition forget_objects (r : outcome unit * Database * World) : outcome unit * World :=
  (r.1.1, r.2).

(** One turn of the loop as the interpreter state sees it: the body on a
    proxy that still is as [db_name] holds the row, the proxy dropped.
    A selection visits no proxy twice, so the loop of these turns is
    [assign_loop] with the proxies forgotten ([assign_loop_for_each]
    below); the properties of the interpreter state are stated with it. *)
Definition parameterize (db_name : string) (exc : ExcRef) : M unit :=
  objs ← bw_Database db_name;
  _ ← assign_uncertainty exc objs;
  mret tt.

(** Lines 58 to 61: the exchanges drawn for parameterization.
    [len(exchs) * percent] converts the int to a float and multiplies in
    binary64. *)
Definition select_exchanges (db_name : string) (percent : float) : M (list ExcRef) :=
  db ← bw_Database db_name;
  let exchs := exchs_of db in
  k ← lift (py_int (F64.mul (F64.of_Z (Z.of_nat (length exchs))) percent));
  let n_uncertain := Z.max 1 k in
  random_sample exchs n_uncertain.

(** The function.  The proxies the comprehension creates are the copy
    [db] of the rows; the loop assigns into them and they are dropped. *)
Definition add_exchange_uncertainty (db_name : string) (percent : float) : M unit :=
  db ← bw_Database db_name;
  let exchs := exchs_of db in
  k ← lift (py_int (F64.mul (F64.of_Z (Z.of_nat (length exchs))) percent));
  let n_uncertain := Z.max 1 k in
  selected ← random_sample exchs n_uncertain;
  (λ w, forget_objects (assign_loop selected db w)) : M unit.

(** Line 60 on its own: [max(1, int(len(exchs) * percent))] for a
    population of [len] exchanges. *)
Definition n_uncertain (len : nat) (percent : float) : outcome Z :=
  match py_int (F64.mul (F64.of_Z (Z.of_nat len)) percent) with
  | Ok k => Ok (Z.max 1 k)
  | Raise e => Raise e
  end.

(** The default of the keyword argument [percent=0.4]. *)
Definition percent_default : float := F64.lit_0_4.

Definition call_add_exchange_uncertainty (db_name : string) (percent : option float) : M unit :=
  add_exchange_uncertainty db_name (default percent_default percent).

(** [run_gsa(model, methods, n=200)] hands its arguments to the library's
    [sobol_simplify_model], received here as a parameter. *)
Definition n_default : nat := 200.

Definition run_gsa {Model Methods Simplified : Type}
    (sobol_simplify_model : Model -> Methods -> nat -> Simplified)
    (model : Model) (methods : Methods) (n : option nat) : Simplified :=
  sobol_simplify_model model methods (default n_default n).

(** One entry of [simplified]: the script reads only [lambd.sobols], a
    dict from parameter name to first-order index; [items()] lists it in
    insertion order. *)
Record LambdaWithParamNames : Type := mkLambda {
  sobols : list (string * float)
}.

(** [sorted(items, key=...)]: Python's sort is stable and compares keys
    with [<] only.  Each element is inserted before the first element of
    the sorted tail whose key is not smaller than its own. *)
Fixpoint insert_by_key {A} (key : A -> float) (x : A) (l : list A) : list A :=
  match l with
  | [] => [x]
  | y :: l' =>
      if F64.ltb (key y) (key x) then y :: insert_by_key key x l'
      else x :: y :: l'
  end.

Definition py_sorted {A} (key : A -> float) (l : list A) : list A :=
  foldr (insert_by_key key) [] l.

(** The order a sort by [key] establishes, and the elements that compare
    equal to a given key. *)
Definition key_le {A} (key : A -> float) (a b : A) : Prop :=
  F64.leb (key a) (key b) = true.
Definition same_key {A} (key : A -> float) (v : float) (a : A) : Prop :=
  F64.eqb (key a) v = true.

#[global] Instance same_key_dec {A} (key : A -> float) v a : Decision (same_key key v a).
Proof. unfold same_key. apply _. Defined.

(** [sorted(lambd.sobols.items(), key=lambda x: -x[1])] *)
Definition ranked_items (lambd : LambdaWithParamNames) : list (string * float) :=
  py_sorted (λ x, F64.neg x.2) (sobols lambd).

(** What [print] writes: the header ["Impact {i}"] and one line per
    parameter, name and index (the formatting to three decimals is not
    modelled). *)
Inductive line : Type :=
  | ImpactLine (i : nat)
  | ParamLine (name : string) (s1 : float).

(** The lines of one turn of the outer loop. *)
Definition impact_block (i : nat) (lambd : LambdaWithParamNames) : list line :=
  ImpactLine i :: ((λ '(name, s1), ParamLine name s1) <$> ranked_items lambd).

Definition print_top_parameters (simplified : list LambdaWithParamNames) : list line :=
  '(i, lambd) ← enumerate simplified; impact_block i lambd.

(** ** What one iteration of the loop leaves behind *)

(** The test [newFloatParam] applies to the bounds the loop passes for an
    amount [v]: [0.5 * v <= v <= 1.5 * v]. *)
Definition valid_bounds (v : float) : bool :=
  F64.leb (F64.mul F64.lit_0_5 v) v && F64.leb v (F64.mul F64.lit_1_5 v).

(** The parameter the loop registers for an exchange [e] of amount [v]. *)
Definition created (e : Exchange) (v : float) : ParamDef :=
  mkParamDef (param_name e) TRIANGLE
    (F64.mul F64.lit_0_5 v) (F64.mul F64.lit_1_5 v) v.

(** The state after a successful iteration on an exchange [e] of amount
    [v]: the parameter is registered; the databases are as they were. *)
Definition registered (e : Exchange) (v : float) (w : World) : World :=
  set_registry (<[param_name e := created e v]> (registry w)) w.

(** A parameter as this loop builds them. *)
Definition loop_built (p : ParamDef) : Prop :=
  p_distribution p = TRIANGLE ∧
  p_low p = F64.mul F64.lit_0_5 (p_default p) ∧
  p_high p = F64.mul F64.lit_1_5 (p_default p).

Definition bounds_hold (p : ParamDef) : Prop :=
  F64.leb (p_low p) (p_default p) = true ∧ F64.leb (p_default p) (p_high p) = true.

(** ** The words of the spec, for comparison *)

(** Python's [round(x)] on a finite float: to the nearest integer, halves
    to the even one. *)
Definition py_round (x : float) : outcome Z :=
  match x with
  | S754_zero _ => Ok 0
  | S754_finite s m e =>
      let q := Z.shiftl (Z.pos m) e in
      let twice_rest := 2 * (Z.pos m - Z.shiftl q (- e)) in
      let unit := Z.shiftl 1 (- e) in
      Ok (cond_Zopp s
            (if (0 <=? e) then q
             else match twice_rest ?= unit with
                  | Lt => q
                  | Gt => q + 1
                  | Eq => if Z.even q then q else q + 1
                  end))
  | S754_infinity _ => Raise OverflowError
  | S754_nan => Raise ValueError
  end.

(** The spec's bounds: [low = (1-spread)*v], [high = (1+spread)*v]. *)
Definition spec_low (spread v : float) : float :=
  F64.mul (F64.sub (F64.of_Z 1) spread) v.
Definition spec_high (spread v : float) : float :=
  F64.mul (F64.add (F64.of_Z 1) spread) v.

(** The spec's count: [max(1, round(fraction * len(exchanges)))]. *)
Definition spec_count (fraction : float) (len : nat) : outcome Z :=
  match py_round (F64.mul fraction (F64.of_Z (Z.of_nat len))) with
  | Ok k => Ok (Z.max 1 k)
  | Raise e => Raise e
  end.


(** ** Sample states *)

Module Samples.

Definition num (k : Z) : value := VNum (F64.of_Z k).

Definition production (code : string) : Exchange :=
  mkExchange (FG_DB, code) "production" (num 1).
Definition technosphere (db code : string) (amount : Z) : Exchange :=
  mkExchange (db, code) "technosphere" (num amount).

(** The foreground activities of [build_demo_database] with the
    technosphere exchanges it lists, each activity with a production
    exchange for its own output. *)
Definition fg1 : Activity :=
  mkActivity "fg1" [production "fg1"; technosphere BG_DB "bg1" 2; technosphere BG_DB "bg2" 3].
Definition fg2 : Activity :=
  mkActivity "fg2" [production "fg2"; technosphere BG_DB "bg1" 1; technosphere BG_DB "bg2" 1].
Definition root : Activity :=
  mkActivity "root" [production "root"; technosphere FG_DB "fg1" 1; technosphere FG_DB "fg2" 1].

Definition demo_fg : Database := [fg1; fg2; root].

Definition world_of (g : list nat) (db : Database) : World :=
  mkWorld g ∅ {[ FG_DB := db ]}.

(** Ten eligible exchanges with distinct inputs, and one alone. *)
Definition ten : Database :=
  [mkActivity "a"
     (production "a" ::
      ((λ k, technosphere BG_DB (String (Ascii.ascii_of_nat (97 + k)) EmptyString)
               (Z.of_nat (S k))) <$> seq 0 10))].
Definition one : Database :=
  [mkActivity "a" [production "a"; technosphere BG_DB "x" 7]].

(** Four eligible exchanges: 0.4 * 4 = 1.6. *)
Definition four : Database := [fg1; fg2].

(** An exchange with a negative amount, one with amount zero. *)
Definition negative : Database :=
  [mkActivity "a" [production "a"; technosphere BG_DB "waste" (-2)]].
Definition zero : Database :=
  [mkActivity "a" [production "a"; technosphere BG_DB "idle" 0]].

(** Only production exchanges. *)
Definition structural : Database :=
  [mkActivity "a" [production "a"]; mkActivity "b" [production "b"]].


(** States of the interpreter: a database under ["fg"], an empty registry
    and the next draws of the generator. *)
Definition calm : World := world_of [0; 0]%nat demo_fg.

Definition other : World := world_of [5; 4]%nat demo_fg.
Definition clash : World := world_of [0; 2]%nat demo_fg.
Definition w_ten : World := world_of [3; 1; 4; 1; 5]%nat ten.
Definition w_one : World := world_of [7]%nat one.
Definition w_four : World := world_of [0]%nat four.
Definition w_negative : World := world_of [0]%nat negative.
Definition w_zero : World := world_of [0]%nat zero.
Definition w_structural : World := world_of [0; 1]%nat structural.


(** [clash] after the first turn of the loop, on the exchange (0, 1). *)
Definition clash_after_first : World :=
  registered (technosphere BG_DB "bg1" 2) (F64.of_Z 2) (set_rng [] clash).

End Samples.

(** ** Vocabulary for the properties of the whole script *)

(** Two exchange objects that differ at most in their amount. *)
Definition same_but_amount (e' e : Exchange) : Prop :=
  exc_input e' = exc_input e ∧ exc_type e' = exc_type e.

(** The float [2^j] in canonical form: [1.0] is [two_to 0], [0.5] is
    [two_to (-1)], [2.0] is [two_to 1]. *)
Definition two_to (j : Z) : float := S754_finite false (2 ^ 52) (j - 52).

(** A float that is zero or negative. *)
Definition not_positive (x : float) : bool :=
  match x with
  | S754_zero _ => true
  | S754_finite s _ _ => s
  | _ => false
  end.

(** The line a parameter is printed on. *)
Definition param_line (x : string * float) : line := ParamLine x.1 x.2.

Definition is_header (l : line) : bool :=
  match l with ImpactLine _ => true | ParamLine _ _ => false end.

(** The same line in a report that has [k] impacts before it. *)
Definition shift_impact (k : nat) (l : line) : line :=
  match l with
  | ImpactLine i => ImpactLine (k + i)
  | ParamLine name s1 => ParamLine name s1
  end.

(** The report of a list of impacts of which the first has number [k]. *)
Definition report_from (k : nat) (simplified : list LambdaWithParamNames) : list line :=
  mjoin (imap (λ i, impact_block (k + i)) simplified).

(** The sign of a float, where it has one. *)
Definition has_sign (s : bool) (x : float) : Prop :=
  match x with
  | S754_zero s' | S754_infinity s' | S754_finite s' _ _ => s' = s
  | S754_nan => True
  end.

(** * Properties *)

(** ** The monad *)

Section monad.
Context {A B : Type}.
Implicit Types (m : M A) (f : A → M B).

Lemma bind_unfold m f w :
  (m ≫= f) w =
  match m w with (Ok a, w') => f a w' | (Raise e, w') => (Raise e, w') end.
Proof. reflexivity. Qed.

Lemma bind_ok m f w a w' : m w = (Ok a, w') → (m ≫= f) w = f a w'.
Proof. intros H. by rewrite bind_unfold, H. Qed.

Lemma bind_raise m f w e w' : m w = (Raise e, w') → (m ≫= f) w = (Raise e, w').
Proof. intros H. by rewrite bind_unfold, H. Qed.

Lemma bind_inv_ok m f w b w2 :
  (m ≫= f) w = (Ok b, w2) → ∃ a w1, m w = (Ok a, w1) ∧ f a w1 = (Ok b, w2).
Proof.
  rewrite bind_unfold. destruct (m w) as [[a|e] w1]; [eauto | discriminate].
Qed.

Lemma bind_inv_raise m f w e w2 :
  (m ≫= f) w = (Raise e, w2) →
  m w = (Raise e, w2) ∨ ∃ a w1, m w = (Ok a, w1) ∧ f a w1 = (Raise e, w2).
Proof.
  rewrite bind_unfold. destruct (m w) as [[a|e'] w1]; [eauto | left; congruence].
Qed.
End monad.

Section for_each.
Context {A : Type} (body : A → M unit).

Lemma for_each_cons x l w :
  for_each (x :: l) body w =
  match body x w with
  | (Ok _, w') => for_each l body w'
  | (Raise e, w') => (Raise e, w')
  end.
Proof. reflexivity. Qed.

Lemma for_each_app l1 l2 w :
  for_each (l1 ++ l2) body w =
  match for_each l1 body w with
  | (Ok _, w') => for_each l2 body w'
  | (Raise e, w') => (Raise e, w')
  end.
Proof.
  revert w. induction l1 as [|x l1 IH]; intros w; [done|].
  rewrite <- app_comm_cons, !for_each_cons.
  destruct (body x w) as [[[]|e] w']; [apply IH | done].
Qed.

(** A loop that raises stopped at some element, after the elements before
    it had all been processed. *)
Lemma for_each_raise_inv l w e w' :
  for_each l body w = (Raise e, w') →
  ∃ pre x post w1,
    l = pre ++ x :: post ∧
    for_each pre body w = (Ok tt, w1) ∧
    body x w1 = (Raise e, w').
Proof.
  revert w. induction l as [|x l IH]; intros w; [discriminate|].
  rewrite for_each_cons. destruct (body x w) as [[[]|e1] w1] eqn:Hx.
  - intros (pre & y & post & w2 & -> & Hpre & Hy)%IH.
    exists (x :: pre), y, post, w2. split_and!; [done | | done].
    by rewrite for_each_cons, Hx.
  - intros [= -> ->]. by exists [], x, l, w.
Qed.
End for_each.

(** ** Databases and exchange references *)

Lemma elem_of_enumerate {A} (l : list A) i x :
  (i, x) ∈ enumerate l ↔ l !! i = Some x.
Proof.
  unfold enumerate. rewrite elem_of_lookup_imap. split.
  - by intros (j & y & [= -> ->] & ?).
  - intros ?. by exists i, x.
Qed.

Lemma NoDup_enumerate {A} (l : list A) : NoDup (enumerate l).
Proof.
  apply (NoDup_fmap_1 fst). unfold enumerate.
  rewrite fmap_imap.
  rewrite (imap_ext _ (λ j _, j)) by done.
  rewrite (imap_seq_0 l (λ j, j)), list_fmap_id. apply NoDup_seq.
Qed.

Lemma elem_of_exchs_of db exc :
  exc ∈ exchs_of db ↔
  ∃ e, lookup_exc db exc = Some e ∧ exc_type e ≠ "production".
Proof.
  unfold exchs_of, lookup_exc. rewrite list_elem_of_bind. split.
  - intros ([i act] & Hin & Hact%elem_of_enumerate).
    apply list_elem_of_bind in Hin as ([j e] & Hin & He%elem_of_enumerate).
    case_decide; [|by apply elem_of_nil in Hin].
    apply list_elem_of_singleton in Hin as ->. exists e; simpl.
    by rewrite Hact.
  - intros (e & Hlook & Hty). destruct exc as [i j]; simpl in *.
    destruct (db !! i) as [act|] eqn:Hact; [|done]. simpl in Hlook.
    exists (i, act). split; [|by apply elem_of_enumerate].
    apply list_elem_of_bind. exists (j, e). split; [|by apply elem_of_enumerate].
    rewrite decide_True by done. apply list_elem_of_here.
Qed.

Lemma NoDup_exchs_of db : NoDup (exchs_of db).
Proof.
  unfold exchs_of. apply NoDup_bind; [| |apply NoDup_enumerate].
  - intros [i1 a1] [i2 a2] exc H1%elem_of_enumerate H2%elem_of_enumerate Hin1 Hin2.
    apply list_elem_of_bind in Hin1 as ([j1 e1] & Hin1 & _).
    apply list_elem_of_bind in Hin2 as ([j2 e2] & Hin2 & _).
    repeat case_decide; try by (apply elem_of_nil in Hin1 || apply elem_of_nil in Hin2).
    apply list_elem_of_singleton in Hin1 as ->.
    apply list_elem_of_singleton in Hin2 as [= -> _]. congruence.
  - intros [i act] _. apply NoDup_bind; [| |apply NoDup_enumerate].
    + intros [j1 e1] [j2 e2] exc H1%elem_of_enumerate H2%elem_of_enumerate Hin1 Hin2.
      repeat case_decide; try by (apply elem_of_nil in Hin1 || apply elem_of_nil in Hin2).
      apply list_elem_of_singleton in Hin1 as ->.
      apply list_elem_of_singleton in Hin2 as [= ->]. congruence.
    + intros [j e] _. case_decide; [apply NoDup_singleton | apply NoDup_nil_2].
Qed.

Lemma lookup_exc_db_set_amount_eq db exc v :
  lookup_exc (db_set_amount exc v db) exc = with_amount v <$> lookup_exc db exc.
Proof.
  unfold lookup_exc, db_set_amount. rewrite list_lookup_alter_eq.
  destruct (db !! exc.1) as [act|]; simpl; [|done].
  apply list_lookup_alter_eq.
Qed.

Lemma lookup_exc_db_set_amount_ne db exc exc' v :
  exc ≠ exc' → lookup_exc (db_set_amount exc v db) exc' = lookup_exc db exc'.
Proof.
  intros Hne. unfold lookup_exc, db_set_amount.
  destruct (decide (exc.1 = exc'.1)) as [Heq|Hne1].
  - rewrite <- Heq, list_lookup_alter_eq.
    destruct (db !! exc.1) as [act|]; simpl; [|done].
    apply list_lookup_alter_ne. intros Heq2.
    apply Hne. destruct exc, exc'; simpl in *; congruence.
  - by rewrite list_lookup_alter_ne.
Qed.

(** Line 71 pins the amount of the proxy and keeps its other keys. *)
Lemma lookup_exc_exc_set_amount_eq objs exc e name :
  lookup_exc objs exc = Some e →
  lookup_exc (exc_set_amount exc (VParam name) objs) exc =
  Some (mkExchange (exc_input e) (exc_type e) (VParam name)).
Proof.
  intros He. unfold exc_set_amount. by rewrite lookup_exc_db_set_amount_eq, He.
Qed.

Lemma lookup_exc_exc_set_amount_ne objs exc exc' v :
  exc ≠ exc' →
  lookup_exc (exc_set_amount exc v objs) exc' = lookup_exc objs exc'.
Proof. apply lookup_exc_db_set_amount_ne. Qed.

(** ** Sampling *)

Lemma set_rng_set_rng g1 g2 w : set_rng g2 (set_rng g1 w) = set_rng g2 w.
Proof. reflexivity. Qed.

Lemma set_rng_id w : set_rng (rng w) w = w.
Proof. by destruct w. Qed.

Lemma randbelow_spec n w :
  ∃ j g, randbelow n w = (Ok j, set_rng g w) ∧ (0 < n → j < n)%nat.
Proof.
  unfold randbelow. destruct (rng w) as [|r g] eqn:Hg.
  - exists 0%nat, []. rewrite <- Hg, set_rng_id. auto.
  - exists (r mod n)%nat, g. split; [done|]. intros ?. apply Nat.mod_upper_bound. lia.
Qed.

Lemma pool_step {A} (pool : list A) j x y :
  pool !! j = Some x → last pool = Some y →
  x :: take (length pool - 1) (<[j := y]> pool) ≡ₚ pool.
Proof.
  intros Hj [l ->]%last_Some.
  rewrite length_app; simpl. replace (length l + 1 - 1)%nat with (length l) by lia.
  destruct (decide (j < length l)%nat) as [Hlt|Hge].
  - rewrite lookup_app_l in Hj by done.
    rewrite insert_app_l by done.
    rewrite take_app_length' by (by rewrite length_insert).
    rewrite insert_take_drop by done.
    rewrite <- (take_drop_middle l j x) at 3 by done.
    rewrite <- !app_assoc; simpl.
    rewrite <- (Permutation_middle (take j l) (drop (S j) l ++ [y]) x).
    do 2 f_equiv. apply Permutation_cons_append.
  - apply lookup_lt_Some in Hj as Hlen. rewrite length_app in Hlen; simpl in Hlen.
    assert (j = length l) as -> by lia.
    rewrite list_lookup_middle in Hj by done. injection Hj as ->.
    rewrite list_insert_id by (by apply list_lookup_middle).
    rewrite take_app_length. apply Permutation_cons_append.
Qed.

Lemma sample_pool_spec {A} (pool : list A) (k : nat) w :
  (k ≤ length pool)%nat →
  ∃ res g, sample_pool pool k w = (Ok res, set_rng g w) ∧
           length res = k ∧ res ⊆+ pool.
Proof.
  revert pool w. induction k as [|k IH]; intros pool w Hk.
  - exists [], (rng w). rewrite set_rng_id. split_and!; [done..|apply submseteq_nil_l].
  - destruct (randbelow_spec (length pool) w) as (j & g1 & Hrand & Hj).
    specialize (Hj ltac:(lia)).
    destruct (lookup_lt_is_Some_2 pool j Hj) as [x Hx].
    destruct (last pool) as [y|] eqn:Hy; [|apply last_None in Hy; subst; simpl in *; lia].
    set (pool' := take (length pool - 1) (<[j := y]> pool)).
    destruct (IH pool' (set_rng g1 w)) as (res & g & Hres & Hlen & Hsub).
    { unfold pool'. rewrite length_take, length_insert. lia. }
    exists (x :: res), g. split_and!.
    + cbn [sample_pool]. unfold mbind, M_bind at 1. rewrite Hrand, Hx, Hy.
      fold pool'. unfold mbind, M_bind, mret, M_ret. by rewrite Hres.
    + simpl. by rewrite Hlen.
    + rewrite <- (pool_step pool j x y) by done. by apply submseteq_skip.
Qed.

Lemma random_sample_ok {A} (population : list A) (k : Z) w :
  0 ≤ k ≤ Z.of_nat (length population) →
  ∃ res g, random_sample population k w = (Ok res, set_rng g w) ∧
           Z.of_nat (length res) = k ∧ res ⊆+ population.
Proof.
  intros Hk. unfold random_sample. rewrite decide_True by done.
  destruct (sample_pool_spec population (Z.to_nat k) w) as (res & g & ? & Hlen & ?); [lia|].
  exists res, g. split_and!; [done | lia | done].
Qed.

Lemma random_sample_raise {A} (population : list A) (k : Z) w :
  ¬ (0 ≤ k ≤ Z.of_nat (length population)) →
  random_sample population k w = (Raise ValueError, w).
Proof. intros Hk. unfold random_sample. by rewrite decide_False. Qed.

(** ** One iteration of the loop *)

Lemma assign_uncertainty_unfold exc objs w :
  assign_uncertainty exc objs w =
  match lookup_exc objs exc with
  | None => (Raise ReferenceError, w)
  | Some e =>
      match newFloatParam (param_name e) (exc_amount e)
              (py_mul F64.lit_0_5 (exc_amount e)) (py_mul F64.lit_1_5 (exc_amount e))
              TRIANGLE w with
      | (Ok param, w1) => (Ok (exc_set_amount exc (VParam (p_name param)) objs), w1)
      | (Raise err, w1) => (Raise err, w1)
      end
  end.
Proof.
  unfold assign_uncertainty. rewrite bind_unfold. unfold exc_getitem.
  destruct (lookup_exc _ _) as [e|]; [|done]. rewrite bind_unfold.
  by destruct (newFloatParam _ _ _ _ _ w) as [[param|err] w1].
Qed.

(** The turn on a proxy as loaded is the turn on any proxies that hold
    the same exchange at that position, the proxies forgotten. *)
Lemma parameterize_assign_uncertainty db_name exc objs w :
  lookup_exc objs exc = lookup_exc (stored db_name w) exc →
  parameterize db_name exc w =
  match assign_uncertainty exc objs w with
  | (Ok _, w1) => (Ok tt, w1)
  | (Raise err, w1) => (Raise err, w1)
  end.
Proof.
  intros Hsame. unfold parameterize. rewrite bind_unfold. unfold bw_Database.
  rewrite bind_unfold, !assign_uncertainty_unfold, Hsame.
  destruct (lookup_exc (stored db_name w) exc) as [e|]; [|done].
  by destruct (newFloatParam _ _ _ _ _ w) as [[param|err] w1].
Qed.

Lemma parameterize_unfold db_name exc w :
  parameterize db_name exc w =
  match lookup_exc (stored db_name w) exc with
  | None => (Raise ReferenceError, w)
  | Some e =>
      match newFloatParam (param_name e) (exc_amount e)
              (py_mul F64.lit_0_5 (exc_amount e)) (py_mul F64.lit_1_5 (exc_amount e))
              TRIANGLE w with
      | (Ok param, w1) => (Ok tt, w1)
      | (Raise err, w1) => (Raise err, w1)
      end
  end.
Proof.
  rewrite (parameterize_assign_uncertainty db_name exc (stored db_name w)) by done.
  rewrite assign_uncertainty_unfold.
  destruct (lookup_exc (stored db_name w) exc) as [e|]; [|done].
  by destruct (newFloatParam _ _ _ _ _ w) as [[param|err] w1].
Qed.

Lemma newFloatParam_num name v distrib w :
  newFloatParam name (VNum v) (py_mul F64.lit_0_5 (VNum v)) (py_mul F64.lit_1_5 (VNum v)) distrib w =
  if valid_bounds v then
    match registry w !! name with
    | Some _ => (Raise DuplicateParameterError, w)
    | None =>
        let param := mkParamDef name distrib (F64.mul F64.lit_0_5 v) (F64.mul F64.lit_1_5 v) v in
        (Ok param, set_registry (<[name := param]> (registry w)) w)
    end
  else (Raise ConfigurationError, w).
Proof. reflexivity. Qed.

Lemma newFloatParam_symbolic name val distrib w :
  (∀ v, val ≠ VNum v) →
  newFloatParam name val (py_mul F64.lit_0_5 val) (py_mul F64.lit_1_5 val) distrib w =
  (Raise ConfigurationError, w).
Proof. intros Hval. destruct val; [by edestruct Hval | done..]. Qed.

Section iteration.
Context (db_name : string) (exc : ExcRef) (w : World) (e : Exchange).
Hypothesis Hexc : lookup_exc (stored db_name w) exc = Some e.

Lemma parameterize_ok v :
  exc_amount e = VNum v → valid_bounds v = true →
  registry w !! param_name e = None →
  parameterize db_name exc w = (Ok tt, registered e v w).
Proof.
  intros Hv Hb Hfresh.
  by rewrite parameterize_unfold, Hexc, Hv, newFloatParam_num, Hb, Hfresh.
Qed.

Lemma parameterize_out_of_bounds v :
  exc_amount e = VNum v → valid_bounds v = false →
  parameterize db_name exc w = (Raise ConfigurationError, w).
Proof.
  intros Hv Hb. by rewrite parameterize_unfold, Hexc, Hv, newFloatParam_num, Hb.
Qed.

Lemma parameterize_symbolic :
  (∀ v, exc_amount e ≠ VNum v) →
  parameterize db_name exc w = (Raise ConfigurationError, w).
Proof.
  intros Hv. by rewrite parameterize_unfold, Hexc, newFloatParam_symbolic.
Qed.

Lemma parameterize_duplicate v :
  exc_amount e = VNum v → valid_bounds v = true →
  is_Some (registry w !! param_name e) →
  parameterize db_name exc w = (Raise DuplicateParameterError, w).
Proof.
  intros Hv Hb [p Hp].
  by rewrite parameterize_unfold, Hexc, Hv, newFloatParam_num, Hb, Hp.
Qed.
End iteration.

(** Every way an iteration can end. *)
Lemma parameterize_cases db_name exc w :
  (lookup_exc (stored db_name w) exc = None ∧
   parameterize db_name exc w = (Raise ReferenceError, w)) ∨
  (∃ e, lookup_exc (stored db_name w) exc = Some e ∧
     ((∀ v, exc_amount e ≠ VNum v) ∧
        parameterize db_name exc w = (Raise ConfigurationError, w) ∨
      ∃ v, exc_amount e = VNum v ∧
        (valid_bounds v = false ∧
           parameterize db_name exc w = (Raise ConfigurationError, w) ∨
         valid_bounds v = true ∧ is_Some (registry w !! param_name e) ∧
           parameterize db_name exc w = (Raise DuplicateParameterError, w) ∨
         valid_bounds v = true ∧ registry w !! param_name e = None ∧
           parameterize db_name exc w = (Ok tt, registered e v w)))).
Proof.
  destruct (lookup_exc (stored db_name w) exc) as [e|] eqn:Hexc.
  - right. exists e. split; [done|].
    destruct (exc_amount e) as [v| |] eqn:Hv.
    + right. exists v. split; [done|].
      destruct (valid_bounds v) eqn:Hb.
      * destruct (registry w !! param_name e) as [p|] eqn:Hp.
        -- right; left. eauto using parameterize_duplicate.
        -- right; right. eauto using parameterize_ok.
      * left. eauto using parameterize_out_of_bounds.
    + left. split; [done|]. apply (parameterize_symbolic _ _ _ e); [done|]. by rewrite Hv.
    + left. split; [done|]. apply (parameterize_symbolic _ _ _ e); [done|]. by rewrite Hv.
  - left. split; [done|]. by rewrite parameterize_unfold, Hexc.
Qed.

Lemma parameterize_inv_ok db_name exc w w' :
  parameterize db_name exc w = (Ok tt, w') →
  ∃ e v, lookup_exc (stored db_name w) exc = Some e ∧ exc_amount e = VNum v ∧
         valid_bounds v = true ∧ registry w !! param_name e = None ∧
         w' = registered e v w.
Proof.
  destruct (parameterize_cases db_name exc w)
    as [[_ ->]|(e & He & [[_ ->]|(v & Hv & [[_ ->]|[(_ & _ & ->)|(Hb & Hp & ->)]])])];
    try discriminate.
  intros [= <-]. by exists e, v.
Qed.

Lemma parameterize_inv_raise db_name exc w err w' :
  parameterize db_name exc w = (Raise err, w') → w' = w.
Proof.
  destruct (parameterize_cases db_name exc w)
    as [[_ ->]|(e & He & [[_ ->]|(v & Hv & [[_ ->]|[(_ & _ & ->)|(Hb & Hp & ->)]])])];
    congruence.
Qed.

(** The script saves no proxy: an iteration leaves the databases alone. *)
Lemma stored_registered db_name e v w :
  stored db_name (registered e v w) = stored db_name w.
Proof. reflexivity. Qed.

Lemma parameterize_databases db_name exc w res w' :
  parameterize db_name exc w = (res, w') → databases w' = databases w ∧ rng w' = rng w.
Proof.
  destruct res as [[]|err].
  - by intros (e & v & _ & _ & _ & _ & ->)%parameterize_inv_ok.
  - by intros ->%parameterize_inv_raise.
Qed.

(** The turn on the proxies, read back. *)
Lemma assign_uncertainty_inv_ok exc objs w objs' w' :
  assign_uncertainty exc objs w = (Ok objs', w') →
  ∃ e v, lookup_exc objs exc = Some e ∧ exc_amount e = VNum v ∧
         valid_bounds v = true ∧ registry w !! param_name e = None ∧
         w' = registered e v w ∧
         objs' = exc_set_amount exc (VParam (param_name e)) objs.
Proof.
  rewrite assign_uncertainty_unfold.
  destruct (lookup_exc objs exc) as [e|]; [|discriminate].
  destruct (exc_amount e) as [v| |] eqn:Hv; [|discriminate..].
  rewrite newFloatParam_num.
  destruct (valid_bounds v) eqn:Hb; [|discriminate].
  destruct (registry w !! param_name e) eqn:Hp; [discriminate|].
  intros [= <- <-]. by exists e, v.
Qed.

Lemma assign_uncertainty_inv_raise exc objs w err w' :
  assign_uncertainty exc objs w = (Raise err, w') → w' = w.
Proof.
  rewrite assign_uncertainty_unfold.
  destruct (lookup_exc objs exc) as [e|]; [|congruence].
  destruct (exc_amount e) as [v| |] eqn:Hv; [|simpl; congruence..].
  rewrite newFloatParam_num.
  destruct (valid_bounds v); [|congruence].
  destruct (registry w !! param_name e); [congruence|discriminate].
Qed.

Lemma created_loop_built e v : loop_built (created e v).
Proof. by repeat split. Qed.

Lemma created_bounds_hold e v : valid_bounds v = true → bounds_hold (created e v).
Proof. intros [??]%andb_true_iff. by split. Qed.

(** ** The whole loop *)

(** Whatever its outcome, an iteration keeps every registered parameter and
    adds at most one, built by the loop within its bounds. *)
Lemma parameterize_registry db_name exc w res w' :
  parameterize db_name exc w = (res, w') →
  (∀ name p, registry w !! name = Some p → registry w' !! name = Some p) ∧
  (∀ name p, registry w !! name = None → registry w' !! name = Some p →
             loop_built p ∧ bounds_hold p).
Proof.
  destruct res as [[]|err].
  - intros (e & v & He & Hv & Hb & Hfresh & ->)%parameterize_inv_ok.
    unfold registered; simpl. split; intros name p.
    + intros Hp. rewrite lookup_insert_ne; [done|]. intros <-. congruence.
    + intros Hnone. destruct (decide (param_name e = name)) as [<-|Hne].
      * rewrite lookup_insert_eq. intros [= <-].
        auto using created_loop_built, created_bounds_hold.
      * rewrite lookup_insert_ne by done. congruence.
  - intros ->%parameterize_inv_raise. split; [done|]. congruence.
Qed.

Lemma for_each_parameterize_registry db_name l w res w' :
  for_each l (parameterize db_name) w = (res, w') →
  (∀ name p, registry w !! name = Some p → registry w' !! name = Some p) ∧
  (∀ name p, registry w !! name = None → registry w' !! name = Some p →
             loop_built p ∧ bounds_hold p).
Proof.
  revert w. induction l as [|exc l IH]; intros w.
  - intros [= <- <-]. split; [done|]. congruence.
  - rewrite for_each_cons.
    destruct (parameterize db_name exc w) as [[[]|err] w1] eqn:Hexc.
    + intros [Hkeep Hnew]%IH. apply parameterize_registry in Hexc as [Hkeep1 Hnew1].
      split; [by auto|]. intros name p Hnone Hp.
      destruct (registry w1 !! name) as [p1|] eqn:Hp1; [|by eauto].
      apply Hkeep in Hp1 as Hp1'. assert (p = p1) as -> by congruence. eauto.
    + intros [= <- <-]. by eapply parameterize_registry.
Qed.

(** The loop, whatever its outcome, touches the registry alone. *)
Lemma for_each_parameterize_databases db_name l w res w' :
  for_each l (parameterize db_name) w = (res, w') →
  databases w' = databases w ∧ rng w' = rng w.
Proof.
  revert w. induction l as [|exc l IH]; intros w.
  - by intros [= <- <-].
  - rewrite for_each_cons.
    destruct (parameterize db_name exc w) as [[[]|err] w1] eqn:Hexc.
    + apply parameterize_databases in Hexc as [Hd Hg].
      intros [Hd' Hg']%IH. split; congruence.
    + intros [= <- <-]. by eapply parameterize_databases.
Qed.

(** A loop that ran to its end has registered the parameter of each
    exchange of the list. *)
Lemma for_each_parameterize_ok db_name l w w' :
  for_each l (parameterize db_name) w = (Ok tt, w') →
  ∀ exc, exc ∈ l →
    ∃ e v, lookup_exc (stored db_name w) exc = Some e ∧
           exc_amount e = VNum v ∧ valid_bounds v = true ∧
           registry w !! param_name e = None ∧
           registry w' !! param_name e = Some (created e v).
Proof.
  revert w. induction l as [|x l IH]; intros w.
  - by intros _ ? ?%elem_of_nil.
  - rewrite for_each_cons.
    destruct (parameterize db_name x w) as [[[]|err] w1] eqn:Hbody; [|discriminate].
    intros Hrest. pose proof (for_each_parameterize_registry _ _ _ _ _ Hrest) as [Hkeep _].
    pose proof (IH _ Hrest) as Hin.
    apply parameterize_inv_ok in Hbody as (e & v & He & Hv & Hb & Hfresh & ->).
    intros exc Hexc.
    destruct (decide (exc = x)) as [->|Hne].
    + exists e, v. split_and!; [done..|].
      apply Hkeep. unfold registered; simpl. apply lookup_insert_eq.
    + apply elem_of_cons in Hexc as [?|Hexc]; [done|].
      destruct (Hin exc Hexc) as (e' & v' & He' & Hv' & Hb' & Hfresh' & Hreg).
      rewrite stored_registered in He'.
      exists e', v'. split_and!; [done..| |done].
      unfold registered in Hfresh'; simpl in Hfresh'.
      by apply lookup_insert_None in Hfresh' as [? _].
Qed.

(** ** The loop on the proxies *)

Lemma assign_loop_cons exc rest objs w :
  assign_loop (exc :: rest) objs w =
  match assign_uncertainty exc objs w with
  | (Ok objs', w') => assign_loop rest objs' w'
  | (Raise e, w') => (Raise e, objs, w')
  end.
Proof. reflexivity. Qed.

(** Seen from the interpreter state, the loop on the proxies is the loop
    of turns on proxies as loaded: no proxy is visited twice. *)
Lemma assign_loop_for_each db_name l objs w :
  NoDup l →
  (∀ exc, exc ∈ l → lookup_exc objs exc = lookup_exc (stored db_name w) exc) →
  forget_objects (assign_loop l objs w) = for_each l (parameterize db_name) w.
Proof.
  intros Hnd. revert objs w. induction Hnd as [|x l Hx Hnd IH]; intros objs w Hsame; [done|].
  rewrite assign_loop_cons, for_each_cons.
  rewrite (parameterize_assign_uncertainty db_name x objs) by (apply Hsame; left).
  destruct (assign_uncertainty x objs w) as [[objs1|err] w1] eqn:Hx1; [|done].
  apply assign_uncertainty_inv_ok in Hx1 as (e & v & _ & _ & _ & _ & -> & ->).
  apply IH. intros exc Hexc. rewrite stored_registered.
  rewrite lookup_exc_exc_set_amount_ne by (intros ->; done).
  apply Hsame. by right.
Qed.

Lemma assign_loop_registry l objs w res objs' w' :
  assign_loop l objs w = (res, objs', w') →
  ∀ name p, registry w !! name = Some p → registry w' !! name = Some p.
Proof.
  revert objs w. induction l as [|x l IH]; intros objs w.
  - by intros [= <- <- <-].
  - rewrite assign_loop_cons.
    destruct (assign_uncertainty x objs w) as [[objs1|err] w1] eqn:Hx.
    + apply assign_uncertainty_inv_ok in Hx as (e & v & _ & _ & _ & Hfresh & -> & ->).
      intros Hrest name p Hp. eapply IH; [done|].
      unfold registered; simpl. rewrite lookup_insert_ne; [done|]. intros <-. congruence.
    + apply assign_uncertainty_inv_raise in Hx as ->. by intros [= <- <- <-].
Qed.

(** How the loop leaves the proxies: those of the turns that completed
    hold the reference to their parameter, which is registered; every
    other proxy is as it was, and so are the databases and the generator.
    A loop that raised stopped at the turn that raises in the final state. *)
Lemma assign_loop_objects l objs w res objs' w' :
  NoDup l →
  assign_loop l objs w = (res, objs', w') →
  ∃ pre post,
    l = pre ++ post ∧
    match res with
    | Ok _ => post = []
    | Raise err =>
        ∃ exc post', post = exc :: post' ∧
                     assign_uncertainty exc objs' w' = (Raise err, w')
    end ∧
    databases w' = databases w ∧ rng w' = rng w ∧
    (∀ exc, exc ∉ pre → lookup_exc objs' exc = lookup_exc objs exc) ∧
    (∀ exc, exc ∈ pre →
       ∃ e v, lookup_exc objs exc = Some e ∧ exc_amount e = VNum v ∧
              valid_bounds v = true ∧
              registry w !! param_name e = None ∧
              lookup_exc objs' exc =
                Some (mkExchange (exc_input e) (exc_type e) (VParam (param_name e))) ∧
              registry w' !! param_name e = Some (created e v)).
Proof.
  intros Hnd. revert objs w. induction Hnd as [|x l Hx Hnd IH]; intros objs w.
  - intros [= <- <- <-]. exists [], []. split_and!; [done..|]. by intros ? ?%elem_of_nil.
  - rewrite assign_loop_cons.
    destruct (assign_uncertainty x objs w) as [[objs1|err] w1] eqn:Hx1.
    + apply assign_uncertainty_inv_ok in Hx1 as (e & v & He & Hv & Hb & Hfresh & -> & ->).
      intros Hrest. pose proof (assign_loop_registry _ _ _ _ _ _ Hrest) as Hkeep.
      apply IH in Hrest as (pre & post & -> & Hres & Hdb & Hg & Hout & Hin).
      exists (x :: pre), post. split_and!; [done..| |].
      * intros exc [Hne Hnin]%not_elem_of_cons.
        by rewrite Hout, lookup_exc_exc_set_amount_ne.
      * intros exc Hexc. destruct (decide (exc = x)) as [->|Hne].
        -- exists e, v. split_and!; [done..| |].
           ++ rewrite Hout by (intros ?; apply Hx, elem_of_app; by left).
              by apply lookup_exc_exc_set_amount_eq.
           ++ apply Hkeep. unfold registered; simpl. apply lookup_insert_eq.
        -- apply elem_of_cons in Hexc as [?|Hexc]; [done|].
           destruct (Hin exc Hexc) as (e' & v' & He' & Hv' & Hb' & Hfresh' & Hobj & Hreg).
           rewrite lookup_exc_exc_set_amount_ne in He' by done.
           exists e', v'. split_and!; [done..| |done|done].
           unfold registered in Hfresh'; simpl in Hfresh'.
           by apply lookup_insert_None in Hfresh' as [? _].
    + pose proof Hx1 as Heq. apply assign_uncertainty_inv_raise in Heq as ->.
      intros [= <- <- <-].
      exists [], (x :: l). split_and!; [done | by exists x, l | done | done | done |].
      by intros ? ?%elem_of_nil.
Qed.

(** ** Selection *)

Lemma n_uncertain_ge_1 len percent k : n_uncertain len percent = Ok k → 1 ≤ k.
Proof.
  unfold n_uncertain. destruct (py_int _); [|discriminate]. intros [= <-]. lia.
Qed.

Lemma select_exchanges_unfold db_name percent w :
  select_exchanges db_name percent w =
  match n_uncertain (length (exchs_of (stored db_name w))) percent with
  | Ok k => random_sample (exchs_of (stored db_name w)) k w
  | Raise err => (Raise err, w)
  end.
Proof.
  unfold select_exchanges, n_uncertain. rewrite bind_unfold. unfold bw_Database.
  rewrite bind_unfold. unfold lift. by destruct (py_int _).
Qed.

(** The operation is the selection followed by the loop on the proxies
    loaded from the database. *)
Lemma add_exchange_uncertainty_objects db_name percent w :
  add_exchange_uncertainty db_name percent w =
  match select_exchanges db_name percent w with
  | (Ok selected, w0) => forget_objects (assign_loop selected (stored db_name w) w0)
  | (Raise err, w0) => (Raise err, w0)
  end.
Proof.
  rewrite select_exchanges_unfold.
  unfold add_exchange_uncertainty, n_uncertain. rewrite bind_unfold. unfold bw_Database.
  rewrite bind_unfold. unfold lift. destruct (py_int _); [|done].
  rewrite bind_unfold. by destruct (random_sample _ _ w) as [[selected|err] w0].
Qed.

Lemma select_exchanges_ok db_name percent w k :
  n_uncertain (length (exchs_of (stored db_name w))) percent = Ok k →
  k ≤ Z.of_nat (length (exchs_of (stored db_name w))) →
  ∃ selected g,
    select_exchanges db_name percent w = (Ok selected, set_rng g w) ∧
    Z.of_nat (length selected) = k ∧
    selected ⊆+ exchs_of (stored db_name w).
Proof.
  intros Hk Hle. rewrite select_exchanges_unfold, Hk.
  apply random_sample_ok. apply n_uncertain_ge_1 in Hk. lia.
Qed.

Lemma select_exchanges_inv db_name percent w selected w0 :
  select_exchanges db_name percent w = (Ok selected, w0) →
  ∃ g, w0 = set_rng g w ∧
       n_uncertain (length (exchs_of (stored db_name w))) percent =
         Ok (Z.of_nat (length selected)) ∧
       selected ⊆+ exchs_of (stored db_name w).
Proof.
  rewrite select_exchanges_unfold.
  destruct (n_uncertain _ _) as [k|err] eqn:Hk; [|discriminate].
  destruct (decide (0 ≤ k ≤ Z.of_nat (length (exchs_of (stored db_name w))))) as [Hin|Hout].
  - destruct (random_sample_ok (exchs_of (stored db_name w)) k w Hin)
      as (res & g & -> & Hlen & Hsub).
    intros [= <- <-]. exists g. by rewrite Hlen.
  - by rewrite random_sample_raise.
Qed.

Lemma select_exchanges_inv_raise db_name percent w err w0 :
  select_exchanges db_name percent w = (Raise err, w0) → w0 = w.
Proof.
  rewrite select_exchanges_unfold.
  destruct (n_uncertain _ _) as [k|err'] eqn:Hk; [|congruence].
  destruct (decide (0 ≤ k ≤ Z.of_nat (length (exchs_of (stored db_name w))))) as [Hin|Hout].
  - destruct (random_sample_ok (exchs_of (stored db_name w)) k w Hin)
      as (res & g & -> & _). discriminate.
  - rewrite random_sample_raise by done. congruence.
Qed.

Lemma selected_NoDup db_name w (selected : list ExcRef) :
  selected ⊆+ exchs_of (stored db_name w) → NoDup selected.
Proof.
  intros (k & Hk)%submseteq_Permutation.
  pose proof (NoDup_exchs_of (stored db_name w)) as Hnd.
  rewrite Hk in Hnd. by apply NoDup_app in Hnd as [? _].
Qed.

Lemma selected_eligible db_name w (selected : list ExcRef) exc :
  selected ⊆+ exchs_of (stored db_name w) → exc ∈ selected →
  ∃ e, lookup_exc (stored db_name w) exc = Some e ∧ exc_type e ≠ "production".
Proof.
  intros Hsub Hin. apply elem_of_exchs_of.
  by eapply elem_of_submseteq.
Qed.

(** Seen from the interpreter state, the operation is the selection
    followed by one turn for each selected exchange. *)
Lemma add_exchange_uncertainty_unfold db_name percent w :
  add_exchange_uncertainty db_name percent w =
  match select_exchanges db_name percent w with
  | (Ok selected, w0) => for_each selected (parameterize db_name) w0
  | (Raise err, w0) => (Raise err, w0)
  end.
Proof.
  rewrite add_exchange_uncertainty_objects.
  destruct (select_exchanges db_name percent w) as [[selected|err] w0] eqn:Hsel; [|done].
  apply select_exchanges_inv in Hsel as (g & -> & _ & Hsub).
  apply assign_loop_for_each; [by eapply selected_NoDup|done].
Qed.

(** ** Arithmetic facts *)

Lemma mul_zero_l percent :
  F64.is_finite percent = true →
  ∃ s, F64.mul (F64.of_Z 0) percent = S754_zero s.
Proof. destruct percent as [s|s| |s m e]; try discriminate; intros _; by eexists. Qed.

Lemma n_uncertain_0 percent :
  n_uncertain 0 percent = Ok 1 ∨ n_uncertain 0 percent = Raise ValueError.
Proof. destruct percent as [s|s| |s m e]; auto. Qed.

Lemma n_uncertain_0_finite percent :
  F64.is_finite percent = true → n_uncertain 0 percent = Ok 1.
Proof. destruct percent as [s|s| |s m e]; by try discriminate. Qed.

Lemma scale_zero s :
  F64.mul F64.lit_0_5 (S754_zero s) = S754_zero s ∧
  F64.mul F64.lit_1_5 (S754_zero s) = S754_zero s.
Proof. by destruct s. Qed.

Lemma valid_bounds_zero s : valid_bounds (S754_zero s) = true.
Proof. by destruct s. Qed.

Lemma param_name_inj e1 e2 :
  param_name e1 = param_name e2 → (exc_input e1).2 = (exc_input e2).2.
Proof. unfold param_name. simpl. by intros [=]. Qed.

(** ** The operation, step by step *)

(** The state in which the loop reaches an element of the selection. *)
Lemma add_exchange_uncertainty_at db_name percent w selected w0 pre exc post w1 :
  select_exchanges db_name percent w = (Ok selected, w0) →
  selected = pre ++ exc :: post →
  for_each pre (parameterize db_name) w0 = (Ok tt, w1) →
  add_exchange_uncertainty db_name percent w =
  match parameterize db_name exc w1 with
  | (Ok _, w2) => for_each post (parameterize db_name) w2
  | (Raise err, w2) => (Raise err, w2)
  end.
Proof.
  intros Hsel -> Hpre.
  by rewrite add_exchange_uncertainty_unfold, Hsel, for_each_app, Hpre, for_each_cons.
Qed.

Lemma add_exchange_uncertainty_registry db_name percent w res w' :
  add_exchange_uncertainty db_name percent w = (res, w') →
  (∀ name p, registry w !! name = Some p → registry w' !! name = Some p) ∧
  (∀ name p, registry w !! name = None → registry w' !! name = Some p →
             loop_built p ∧ bounds_hold p).
Proof.
  rewrite add_exchange_uncertainty_unfold.
  destruct (select_exchanges db_name percent w) as [[selected|err] w0] eqn:Hsel.
  - apply select_exchanges_inv in Hsel as (g & -> & _).
    intros H. by apply for_each_parameterize_registry in H.
  - apply select_exchanges_inv_raise in Hsel as ->. intros [= <- <-].
    split; [done|congruence].
Qed.

(** The script saves no Exchange object: whatever the outcome, the
    databases and, past the selection, the generator are as they were. *)
Lemma add_exchange_uncertainty_databases db_name percent w res w' :
  add_exchange_uncertainty db_name percent w = (res, w') →
  databases w' = databases w.
Proof.
  rewrite add_exchange_uncertainty_unfold.
  destruct (select_exchanges db_name percent w) as [[selected|err] w0] eqn:Hsel.
  - apply select_exchanges_inv in Hsel as (g & -> & _).
    by intros [? _]%for_each_parameterize_databases.
  - apply select_exchanges_inv_raise in Hsel as ->. by intros [= <- <-].
Qed.

Lemma add_exchange_uncertainty_stored db_name percent w res w' other :
  add_exchange_uncertainty db_name percent w = (res, w') →
  stored other w' = stored other w.
Proof.
  intros Hdb%add_exchange_uncertainty_databases. unfold stored. by rewrite Hdb.
Qed.

Lemma spec_bounds_at_half v :
  spec_low F64.lit_0_5 v = F64.mul F64.lit_0_5 v ∧
  spec_high F64.lit_0_5 v = F64.mul F64.lit_1_5 v.
Proof. done. Qed.

Lemma n_uncertain_raise len percent err :
  n_uncertain len percent = Raise err → err = ValueError ∨ err = OverflowError.
Proof.
  unfold n_uncertain, py_int. destruct (F64.mul _ _); intros [=]; auto.
Qed.

Lemma select_exchanges_raise db_name percent w err w0 :
  select_exchanges db_name percent w = (Raise err, w0) →
  err = ValueError ∨ err = OverflowError.
Proof.
  rewrite select_exchanges_unfold.
  destruct (n_uncertain _ _) as [k|err'] eqn:Hk.
  - unfold random_sample. case_decide as Hin.
    + destruct (sample_pool_spec (exchs_of (stored db_name w)) (Z.to_nat k) w)
        as (res & g & -> & _); [lia|discriminate].
    + intros [= <- _]. by left.
  - intros [= <- _]. by eapply n_uncertain_raise.
Qed.

(** The references the loop follows are never dangling: the operation
    raises only the exceptions Python would. *)
Lemma add_exchange_uncertainty_raises db_name percent w err w' :
  add_exchange_uncertainty db_name percent w = (Raise err, w') →
  err ≠ ReferenceError.
Proof.
  rewrite add_exchange_uncertainty_unfold.
  destruct (select_exchanges db_name percent w) as [[selected|err0] w0] eqn:Hsel.
  - apply select_exchanges_inv in Hsel as (g & -> & _ & Hsub).
    apply selected_NoDup in Hsub as Hnd.
    intros (pre & exc & post & w1 & -> & Hpre & Hbody)%for_each_raise_inv.
    assert (exc ∈ pre ++ exc :: post) as Hin by set_solver.
    destruct (selected_eligible _ _ _ _ Hsub Hin) as (e & He & _).
    apply for_each_parameterize_databases in Hpre as [Hdb _].
    assert (stored db_name w1 = stored db_name w) as Hsame
      by (unfold stored; by rewrite Hdb).
    rewrite <- Hsame in He.
    destruct (parameterize_cases db_name exc w1)
      as [[Hnone _]|(e' & _ & [[_ Hr]|(v & _ & [[_ Hr]|[(_ & _ & Hr)|(_ & _ & Hr)]])])];
      congruence.
  - intros [= <- _]. by destruct (select_exchanges_raise _ _ _ _ _ Hsel) as [-> | ->].
Qed.


(** ** The order of binary64 values *)

Section float_order.
Implicit Types x y z : float.

Lemma compare_cont_Eq m1 m2 : Pos.compare_cont Eq m1 m2 = (m1 ?= m2)%positive.
Proof. reflexivity. Qed.

Ltac order_cases :=
  repeat match goal with
  | s : bool |- _ => destruct s
  end;
  repeat (simpl; repeat rewrite compare_cont_Eq;
          match goal with
          | |- context [(?a ?= ?b)%Z] => destruct (Z.compare_spec a b)
          | |- context [(?a ?= ?b)%positive] => destruct (Pos.compare_spec a b)
          end);
  simpl; try done; try lia.






Lemma leb_trans x y z :
  F64.leb x y = true → F64.leb y z = true → F64.leb x z = true.
Proof.
  unfold F64.leb, SFleb. destruct x, y, z; try discriminate; try done; order_cases.
Qed.



End float_order.

(** ** Sorting *)

Section py_sorted.
Context {A : Type} (key : A → float).

Lemma insert_by_key_Permutation x l : insert_by_key key x l ≡ₚ x :: l.
Proof.
  induction l as [|y l IH]; simpl; [done|].
  destruct (F64.ltb (key y) (key x)); [|done].
  by rewrite IH, Permutation_swap.
Qed.

Lemma py_sorted_Permutation l : py_sorted key l ≡ₚ l.
Proof.
  induction l as [|x l IH]; simpl; [done|].
  by rewrite insert_by_key_Permutation, IH.
Qed.

(** Elements that the key cannot tell apart keep their relative order. *)
Section stable.
Context (P : A → Prop) `{!∀ a, Decision (P a)}.
Hypothesis P_class : ∀ a b, P a → P b → F64.ltb (key a) (key b) = false.


End stable.




#[local] Instance key_le_trans : Transitive (key_le key).
Proof. intros a b c. apply leb_trans. Qed.


End py_sorted.


Lemma bind_imap {A B C} (f : nat → A → B) (g : B → list C) (l : list A) :
  imap f l ≫= g = mjoin (imap (λ i x, g (f i x)) l).
Proof.
  revert f. induction l as [|x l IH]; intros f; [done|].
  csimpl. by rewrite IH.
Qed.

Lemma print_top_parameters_unfold simplified :
  print_top_parameters simplified = mjoin (imap impact_block simplified).
Proof. unfold print_top_parameters, enumerate. by rewrite bind_imap. Qed.


(** ** The literals *)

Lemma lit_values :
  F64.lit_0_4 = S754_finite false 7205759403792794 (-54) ∧
  F64.lit_0_5 = S754_finite false 4503599627370496 (-53) ∧
  F64.lit_1_5 = S754_finite false 6755399441055744 (-52).
Proof. by vm_compute. Qed.

(** [lit_0_4] is within half a unit in the last place of 2/5. *)
Lemma lit_0_4_nearest : 2 * Z.abs (5 * 7205759403792794 - 2 * 2 ^ 54) ≤ 5.
Proof. by vm_compute. Qed.

(** * The claims *)

(** ** Selection: C1, C2, C9 *)

(** C1 (as amended).  When the count [max(1, int(len(exchs) * percent))]
    of line 60, with [int] truncating toward zero, does not exceed the
    number of eligible exchanges, [add_exchange_uncertainty] draws exactly
    that many exchanges, at pairwise distinct positions, none of them of
    type ["production"], and runs its loop over them.  With
    [percent = 0.4] it draws 4 of 10 eligible exchanges and 1 of 1. *)
Theorem C1_selection_count db_name percent w k :
  n_uncertain (length (exchs_of (stored db_name w))) percent = Ok k →
  k ≤ Z.of_nat (length (exchs_of (stored db_name w))) →
  ∃ selected g,
    select_exchanges db_name percent w = (Ok selected, set_rng g w) ∧
    add_exchange_uncertainty db_name percent w =
      for_each selected (parameterize db_name) (set_rng g w) ∧
    Z.of_nat (length selected) = k ∧
    NoDup selected ∧
    (∀ exc, exc ∈ selected →
       ∃ e, lookup_exc (stored db_name w) exc = Some e ∧ exc_type e ≠ "production") ∧
    (percent = F64.lit_0_4 → length (exchs_of (stored db_name w)) = 10%nat →
       length selected = 4%nat) ∧
    (percent = F64.lit_0_4 → length (exchs_of (stored db_name w)) = 1%nat →
       length selected = 1%nat).
Proof.
  intros Hk Hle.
  destruct (select_exchanges_ok db_name percent w k Hk Hle)
    as (selected & g & Hsel & Hlen & Hsub).
  pose proof (selected_NoDup _ _ _ Hsub) as Hnd.
  exists selected, g. split_and!; [done| |done|done| | |].
  - by rewrite add_exchange_uncertainty_unfold, Hsel.
  - intros exc Hin. by eapply selected_eligible.
  - intros -> Hten. rewrite Hten in Hk. vm_compute in Hk. injection Hk as <-. lia.
  - intros -> Hone. rewrite Hone in Hk. vm_compute in Hk. injection Hk as <-. lia.
Qed.

Lemma C1_selection_count_witness :
  n_uncertain (length (exchs_of (stored FG_DB Samples.w_ten))) F64.lit_0_4 = Ok 4 ∧
  ∃ selected,
    (select_exchanges FG_DB F64.lit_0_4 Samples.w_ten).1 = Ok selected ∧
    length selected = 4%nat.
Proof.
  split; [reflexivity|].
  destruct (C1_selection_count FG_DB F64.lit_0_4 Samples.w_ten 4)
    as (selected & g & Hsel & _ & _ & _ & _ & Hten & _).
  - reflexivity.
  - vm_compute. discriminate.
  - exists selected. split; [by rewrite Hsel | by apply Hten].
Defined.

(** Against C1 as stated: with 4 eligible exchanges and fraction 0.4 the
    spec's count [max(1, round(0.4 * 4))] is 2, and the script draws one
    exchange and registers one parameter, since [int(1.6)] is 1. *)
Lemma C1_round_counterexample :
  length (exchs_of (stored FG_DB Samples.w_four)) = 4%nat ∧
  spec_count F64.lit_0_4 4 = Ok 2 ∧
  (select_exchanges FG_DB F64.lit_0_4 Samples.w_four).1 = Ok [(0%nat, 1%nat)] ∧
  ∃ w', add_exchange_uncertainty FG_DB F64.lit_0_4 Samples.w_four = (Ok tt, w') ∧
        size (registry w') = 1%nat.
Proof. vm_compute. split_and!; [done..|]. eexists. split; reflexivity. Qed.

(** One eligible exchange: the floor of [max(1, ...)] selects it. *)
Lemma selection_one_of_one :
  (select_exchanges FG_DB F64.lit_0_4 Samples.w_one).1 = Ok [(0%nat, 1%nat)].
Proof. reflexivity. Qed.




(** C9.  With no eligible exchange the operation raises: the count is
    [max(1, int(0 * percent)) = 1] for every finite [percent], one draw from
    an empty population makes [random.sample] raise ValueError, and nothing
    has been changed; for an infinite or NaN [percent] the product is NaN
    and [int] raises ValueError already. *)
Theorem C9_no_eligible_exchange_raises db_name percent w :
  exchs_of (stored db_name w) = [] →
  add_exchange_uncertainty db_name percent w = (Raise ValueError, w) ∧
  (F64.is_finite percent = true →
   n_uncertain (length (exchs_of (stored db_name w))) percent = Ok 1).
Proof.
  intros Hnone. split.
  - rewrite add_exchange_uncertainty_unfold, select_exchanges_unfold, Hnone; simpl.
    destruct (n_uncertain_0 percent) as [-> | ->]; [|done].
    by rewrite random_sample_raise by (simpl; lia).
  - rewrite Hnone. apply n_uncertain_0_finite.
Qed.

Lemma C9_no_eligible_exchange_raises_witness :
  exchs_of (stored FG_DB Samples.w_structural) = [] ∧
  add_exchange_uncertainty FG_DB F64.lit_0_4 Samples.w_structural =
    (Raise ValueError, Samples.w_structural).
Proof.
  split; [reflexivity|].
  apply (C9_no_eligible_exchange_raises FG_DB F64.lit_0_4 Samples.w_structural).
  reflexivity.
Defined.

(** ** Parameter creation: C3, C4, C5, C6 *)

(** C3.  Whatever the outcome of [add_exchange_uncertainty], every
    parameter it has added to the registry satisfies
    [low <= default <= high], whatever the amounts of the selected
    exchanges; and when the loop reaches an exchange whose amount [v]
    breaks [0.5 * v <= v <= 1.5 * v] (a negative amount does), the run
    ends there with ConfigurationError, in the state reached before that
    exchange: no parameter is created for it. *)
Theorem C3_created_within_bounds db_name percent w res w' :
  add_exchange_uncertainty db_name percent w = (res, w') →
  (∀ name p, registry w !! name = None → registry w' !! name = Some p →
     F64.leb (p_low p) (p_default p) = true ∧ F64.leb (p_default p) (p_high p) = true) ∧
  (∀ selected w0 pre exc post w1 e v,
     select_exchanges db_name percent w = (Ok selected, w0) →
     selected = pre ++ exc :: post →
     for_each pre (parameterize db_name) w0 = (Ok tt, w1) →
     lookup_exc (stored db_name w1) exc = Some e →
     exc_amount e = VNum v →
     (F64.leb (F64.mul F64.lit_0_5 v) v && F64.leb v (F64.mul F64.lit_1_5 v)) = false →
     res = Raise ConfigurationError ∧ w' = w1).
Proof.
  intros Hrun. split.
  - intros name p Hnone Hp.
    by destruct (add_exchange_uncertainty_registry _ _ _ _ _ Hrun)
      as [_ [_ ?]%(λ H, H name p Hnone Hp)].
  - intros selected w0 pre exc post w1 e v Hsel Hsplit Hpre He Hv Hb.
    rewrite (add_exchange_uncertainty_at _ _ _ _ _ _ _ _ _ Hsel Hsplit Hpre) in Hrun.
    rewrite (parameterize_out_of_bounds _ _ _ _ He v Hv Hb) in Hrun.
    by injection Hrun as <- <-.
Qed.

Lemma C3_created_within_bounds_witness :
  lookup_exc (stored FG_DB Samples.w_negative) (0, 1)%nat =
    Some (Samples.technosphere BG_DB "waste" (-2)) ∧
  add_exchange_uncertainty FG_DB F64.lit_0_4 Samples.w_negative =
    (Raise ConfigurationError, set_rng [] Samples.w_negative).
Proof.
  split; [reflexivity|].
  destruct (add_exchange_uncertainty FG_DB F64.lit_0_4 Samples.w_negative)
    as [res w'] eqn:Hrun.
  destruct (C3_created_within_bounds FG_DB F64.lit_0_4 Samples.w_negative res w' Hrun)
    as [_ Hfail].
  destruct (Hfail [(0, 1)%nat] (set_rng [] Samples.w_negative) [] (0, 1)%nat []
              (set_rng [] Samples.w_negative)
              (Samples.technosphere BG_DB "waste" (-2)) (F64.of_Z (-2)))
    as [-> ->]; reflexivity.
Defined.

(** C4 (as amended).  The loop processes the selected exchanges in order;
    a run that completes has processed them all.  For each processed
    exchange, of input [(database, code)] and amount [v] before the run,
    the registry holds afterwards, under the name ["p_" + code] that was
    free before, the parameter of that name with [low = 0.5 * v],
    [high = 1.5 * v], [default = v] and distribution Triangle, and the
    amount of the Exchange object the loop holds is the reference to that
    parameter.  The bounds are those of [spread = 0.5], a constant of the
    script; neither the spread nor the distribution is an argument: every
    parameter a run creates is a Triangle with these bounds. *)
Theorem C4_parameter_of_selected_exchange db_name percent w selected w0 res objs w' :
  select_exchanges db_name percent w = (Ok selected, w0) →
  assign_loop selected (stored db_name w) w0 = (res, objs, w') →
  add_exchange_uncertainty db_name percent w = (res, w') ∧
  (∀ name p, registry w !! name = None → registry w' !! name = Some p →
     p_distribution p = TRIANGLE ∧
     p_low p = F64.mul F64.lit_0_5 (p_default p) ∧
     p_high p = F64.mul F64.lit_1_5 (p_default p)) ∧
  ∃ processed rest,
    selected = processed ++ rest ∧
    (res = Ok tt → rest = []) ∧
    ∀ exc, exc ∈ processed →
      ∃ e v,
        lookup_exc (stored db_name w) exc = Some e ∧
        exc_amount e = VNum v ∧
        registry w !! ("p_" +:+ (exc_input e).2) = None ∧
        registry w' !! ("p_" +:+ (exc_input e).2) =
          Some (mkParamDef ("p_" +:+ (exc_input e).2) TRIANGLE
                  (F64.mul F64.lit_0_5 v) (F64.mul F64.lit_1_5 v) v) ∧
        F64.mul F64.lit_0_5 v = spec_low F64.lit_0_5 v ∧
        F64.mul F64.lit_1_5 v = spec_high F64.lit_0_5 v ∧
        lookup_exc objs exc =
          Some (mkExchange (exc_input e) (exc_type e)
                  (VParam ("p_" +:+ (exc_input e).2))).
Proof.
  intros Hsel Hloop.
  assert (add_exchange_uncertainty db_name percent w = (res, w')) as Hrun
    by (by rewrite add_exchange_uncertainty_objects, Hsel, Hloop).
  split_and!; [done| |].
  - intros name p Hnone Hp.
    by destruct (add_exchange_uncertainty_registry _ _ _ _ _ Hrun)
      as [_ [? _]%(λ H, H name p Hnone Hp)].
  - apply select_exchanges_inv in Hsel as (g & -> & _ & Hsub).
    apply selected_NoDup in Hsub as Hnd.
    apply assign_loop_objects in Hloop as (processed & rest & -> & Hres & _ & _ & _ & Hall);
      [|done].
    exists processed, rest. split_and!; [done| |].
    + by intros ->.
    + intros exc Hin.
      destruct (Hall exc Hin) as (e & v & He & Hv & _ & Hfresh & Hobj & Hreg).
      exists e, v. by split_and!.
Qed.

Lemma C4_parameter_of_selected_exchange_witness :
  ∃ objs w',
    assign_loop [(0, 1); (2, 2)]%nat (stored FG_DB Samples.calm) (set_rng [] Samples.calm) =
      (Ok tt, objs, w') ∧
    add_exchange_uncertainty FG_DB F64.lit_0_4 Samples.calm = (Ok tt, w') ∧
    registry w' !! "p_bg1" =
      Some (mkParamDef "p_bg1" TRIANGLE (F64.of_Z 1) (F64.of_Z 3) (F64.of_Z 2)) ∧
    lookup_exc objs (0, 1)%nat =
      Some (mkExchange (BG_DB, "bg1") "technosphere" (VParam "p_bg1")).
Proof.
  destruct (assign_loop [(0, 1); (2, 2)]%nat (stored FG_DB Samples.calm)
              (set_rng [] Samples.calm)) as [[res objs] w'] eqn:Hloop.
  assert (res = Ok tt) as -> by (vm_compute in Hloop; congruence).
  exists objs, w'. split; [done|].
  destruct (C4_parameter_of_selected_exchange FG_DB F64.lit_0_4 Samples.calm
              [(0, 1); (2, 2)]%nat (set_rng [] Samples.calm) (Ok tt) objs w' eq_refl Hloop)
    as (Hrun & _ & processed & rest & Hsplit & Hrest & Hall).
  rewrite (Hrest eq_refl), app_nil_r in Hsplit. subst processed.
  destruct (Hall (0, 1)%nat) as (e & v & He & Hv & _ & Hreg & _ & _ & Hobj).
  { apply list_elem_of_here. }
  vm_compute in He. injection He as <-. injection Hv as <-.
  split_and!; [exact Hrun | exact Hreg | exact Hobj].
Defined.

(** Against C4 as stated: the spread is no input.  Were it one, some call
    would give a parameter of default 2 the lower bound [(1 - spread) * 2]
    of each spread; no call, in no state, gives it the 1.5 of spread 0.25:
    the demo run gives it 1. *)
Lemma C4_spread_is_not_an_input :
  ¬ (∀ spread : float,
       ∃ db_name percent w res w' name p,
         add_exchange_uncertainty db_name percent w = (res, w') ∧
         registry w !! name = None ∧
         registry w' !! name = Some p ∧
         p_default p = F64.of_Z 2 ∧
         p_low p = spec_low spread (F64.of_Z 2)) ∧
  spec_low (two_to (-2)) (F64.of_Z 2) ≠ F64.of_Z 1 ∧
  ∃ w', add_exchange_uncertainty FG_DB F64.lit_0_4 Samples.calm = (Ok tt, w') ∧
        p_low <$> registry w' !! "p_bg1" = Some (F64.of_Z 1).
Proof.
  split_and!.
  - intros H.
    destruct (H (two_to (-2)))
      as (db_name & percent & w & res & w' & name & p & Hrun & Hnone & Hp & Hd & Hlow).
    destruct (add_exchange_uncertainty_registry _ _ _ _ _ Hrun)
      as [_ [(_ & Hl & _) _]%(λ H, H name p Hnone Hp)].
    rewrite Hl, Hd in Hlow. vm_compute in Hlow. discriminate.
  - vm_compute. discriminate.
  - eexists. split; [by vm_compute|]. by vm_compute.
Qed.



(** C6 (as amended).  A selected exchange whose amount is zero (of either
    sign) is neither skipped nor refused: when the loop reaches it and its
    name is free, the turn succeeds, registers the zero-width parameter
    [low = high = default = 0] with distribution Triangle, and the loop
    goes on with the next exchange.  No absolute spread is asked for. *)
Theorem C6_zero_amount_is_parameterized
    db_name percent w selected w0 pre exc post w1 e s :
  select_exchanges db_name percent w = (Ok selected, w0) →
  selected = pre ++ exc :: post →
  for_each pre (parameterize db_name) w0 = (Ok tt, w1) →
  lookup_exc (stored db_name w1) exc = Some e →
  exc_amount e = VNum (S754_zero s) →
  registry w1 !! param_name e = None →
  ∃ w2,
    parameterize db_name exc w1 = (Ok tt, w2) ∧
    registry w2 !! param_name e =
      Some (mkParamDef (param_name e) TRIANGLE (S754_zero s) (S754_zero s) (S754_zero s)) ∧
    add_exchange_uncertainty db_name percent w = for_each post (parameterize db_name) w2.
Proof.
  intros Hsel Hsplit Hpre He Hv Hfresh.
  pose proof (parameterize_ok _ _ _ _ He _ Hv (valid_bounds_zero s) Hfresh) as Hbody.
  exists (registered e (S754_zero s) w1). split_and!; [done| |].
  - unfold registered; cbn [registry set_registry]. rewrite lookup_insert_eq.
    unfold created. by destruct (scale_zero s) as [-> ->].
  - by rewrite (add_exchange_uncertainty_at _ _ _ _ _ _ _ _ _ Hsel Hsplit Hpre), Hbody.
Qed.

Lemma C6_zero_amount_is_parameterized_witness :
  lookup_exc (stored FG_DB Samples.w_zero) (0, 1)%nat =
    Some (Samples.technosphere BG_DB "idle" 0) ∧
  ∃ w2,
    parameterize FG_DB (0, 1)%nat (set_rng [] Samples.w_zero) = (Ok tt, w2) ∧
    registry w2 !! "p_idle" =
      Some (mkParamDef "p_idle" TRIANGLE
              (S754_zero false) (S754_zero false) (S754_zero false)).
Proof.
  split; [reflexivity|].
  destruct (C6_zero_amount_is_parameterized FG_DB F64.lit_0_4 Samples.w_zero
              [(0, 1)%nat] (set_rng [] Samples.w_zero) [] (0, 1)%nat []
              (set_rng [] Samples.w_zero)
              (Samples.technosphere BG_DB "idle" 0) false)
    as (w2 & Hbody & Hreg & _); [reflexivity..|].
  by exists w2.
Defined.

(** Against C6 as stated: the only eligible exchange has amount 0, it is
    selected, the run completes without any error and the zero-width
    parameter is registered. *)
Lemma C6_zero_amount_counterexample :
  lookup_exc (stored FG_DB Samples.w_zero) (0, 1)%nat =
    Some (mkExchange (BG_DB, "idle") "technosphere" (VNum (S754_zero false))) ∧
  (select_exchanges FG_DB F64.lit_0_4 Samples.w_zero).1 = Ok [(0, 1)%nat] ∧
  ∃ w', add_exchange_uncertainty FG_DB F64.lit_0_4 Samples.w_zero = (Ok tt, w') ∧
        registry w' !! "p_idle" =
          Some (mkParamDef "p_idle" TRIANGLE
                  (S754_zero false) (S754_zero false) (S754_zero false)).
Proof.
  split_and!; [reflexivity..|].
  exists (registered (Samples.technosphere BG_DB "idle" 0) (F64.of_Z 0)
            (set_rng [] Samples.w_zero)).
  split; by vm_compute.
Qed.

(** ** Failure in the middle of the loop: C10 *)

(** C10.  The loop has no rollback.  When the loop of
    [add_exchange_uncertainty] raises, the exception comes from the turn of
    one selected exchange, and that turn changed nothing.  Every exchange
    processed before it keeps what its turn did: the amount of its Exchange
    object, a number [v] when it was loaded, is the reference to its
    parameter, and that parameter, new to the registry, stays registered.
    The Exchange objects of the failing turn and of the turns not reached
    are as they were loaded. *)
Theorem C10_no_rollback db_name percent w selected w0 err objs w' :
  select_exchanges db_name percent w = (Ok selected, w0) →
  assign_loop selected (stored db_name w) w0 = (Raise err, objs, w') →
  add_exchange_uncertainty db_name percent w = (Raise err, w') ∧
  ∃ pre exc post,
    selected = pre ++ exc :: post ∧
    assign_uncertainty exc objs w' = (Raise err, w') ∧
    (∀ exc', exc' ∈ pre →
       ∃ e v,
         lookup_exc (stored db_name w) exc' = Some e ∧
         exc_amount e = VNum v ∧
         lookup_exc objs exc' =
           Some (mkExchange (exc_input e) (exc_type e)
                   (VParam ("p_" +:+ (exc_input e).2))) ∧
         registry w !! ("p_" +:+ (exc_input e).2) = None ∧
         registry w' !! ("p_" +:+ (exc_input e).2) =
           Some (mkParamDef ("p_" +:+ (exc_input e).2) TRIANGLE
                   (F64.mul F64.lit_0_5 v) (F64.mul F64.lit_1_5 v) v)) ∧
    (∀ exc', exc' ∈ exc :: post →
       lookup_exc objs exc' = lookup_exc (stored db_name w) exc').
Proof.
  intros Hsel Hloop. split.
  - by rewrite add_exchange_uncertainty_objects, Hsel, Hloop.
  - apply select_exchanges_inv in Hsel as (g & -> & _ & Hsub).
    apply selected_NoDup in Hsub as Hnd.
    pose proof (assign_loop_objects _ _ _ _ _ _ Hnd Hloop)
      as (pre & rest & -> & (exc & post & -> & Hbody) & _ & _ & Hout & Hall).
    exists pre, exc, post. split_and!; [done|done| |].
    + intros exc' Hin.
      destruct (Hall exc' Hin) as (e & v & He & Hv & _ & Hfresh & Hobj & Hreg).
      by exists e, v.
    + intros exc' Hin. apply Hout. intros Hpre.
      apply NoDup_app in Hnd as (_ & Hdisj & _). by eapply Hdisj.
Qed.

Lemma C10_no_rollback_witness :
  ∃ objs,
    assign_loop [(0, 1); (1, 1)]%nat (stored FG_DB Samples.clash) (set_rng [] Samples.clash) =
      (Raise DuplicateParameterError, objs, Samples.clash_after_first) ∧
    add_exchange_uncertainty FG_DB F64.lit_0_4 Samples.clash =
      (Raise DuplicateParameterError, Samples.clash_after_first) ∧
    lookup_exc (stored FG_DB Samples.clash) (0, 1)%nat =
      Some (mkExchange (BG_DB, "bg1") "technosphere" (VNum (F64.of_Z 2))) ∧
    lookup_exc objs (0, 1)%nat =
      Some (mkExchange (BG_DB, "bg1") "technosphere" (VParam "p_bg1")) ∧
    lookup_exc objs (1, 1)%nat =
      Some (mkExchange (BG_DB, "bg1") "technosphere" (VNum (F64.of_Z 1))).
Proof.
  set (objs := exc_set_amount (0, 1)%nat (VParam "p_bg1") Samples.demo_fg).
  assert (assign_loop [(0, 1); (1, 1)]%nat (stored FG_DB Samples.clash)
            (set_rng [] Samples.clash) =
          (Raise DuplicateParameterError, objs, Samples.clash_after_first)) as Hloop
    by reflexivity.
  exists objs. split; [done|].
  destruct (C10_no_rollback FG_DB F64.lit_0_4 Samples.clash [(0, 1); (1, 1)]%nat
              (set_rng [] Samples.clash) DuplicateParameterError objs
              Samples.clash_after_first eq_refl Hloop)
    as (Hrun & pre & exc & post & Hsplit & Hbody & Hpre & Hpost).
  split; [exact Hrun|]. split; [reflexivity|].
  assert (pre = [(0, 1)%nat] ∧ exc = (1, 1)%nat ∧ post = []) as (-> & -> & ->).
  { destruct pre as [|x1 [|x2 pre]]; simpl in Hsplit.
    - injection Hsplit as Hexc _. subst exc. vm_compute in Hbody. discriminate.
    - injection Hsplit as Hx Hexc Hnil. by subst.
    - injection Hsplit as _ _ Hnil. by destruct pre. }
  split.
  - destruct (Hpre (0, 1)%nat) as (e & v & He & _ & Hobj & _); [apply list_elem_of_here|].
    vm_compute in He. injection He as <-. exact Hobj.
  - rewrite (Hpost (1, 1)%nat) by apply list_elem_of_here. reflexivity.
Defined.

(** The database of that run is as it was: nothing saved the objects. *)
Lemma clash_leaves_database :
  databases Samples.clash_after_first = databases Samples.clash ∧
  lookup_exc (stored FG_DB Samples.clash_after_first) (0, 1)%nat =
    Some (mkExchange (BG_DB, "bg1") "technosphere" (VNum (F64.of_Z 2))).
Proof. split; reflexivity. Qed.

(** ** Configuration: C7 *)

(** C7 (as amended).  Of the configuration data only two are arguments,
    each with a default written in the script: the fraction ([percent],
    0.4 when omitted) of [add_exchange_uncertainty] and the sample count
    ([n], 200 when omitted) of [run_gsa].  The spread and the distribution
    family are constants of the loop: every parameter a run adds has bounds
    [0.5 * default] and [1.5 * default] and distribution Triangle, whatever
    the arguments and the state.  There is no seed argument: the selection
    varies with the state of the generator while database, registry and
    arguments stay the same. *)
Theorem C7_configuration_surface :
  (∀ db_name percent w res w' name p,
     add_exchange_uncertainty db_name percent w = (res, w') →
     registry w !! name = None → registry w' !! name = Some p →
     p_distribution p = TRIANGLE ∧
     p_low p = F64.mul F64.lit_0_5 (p_default p) ∧
     p_high p = F64.mul F64.lit_1_5 (p_default p)) ∧
  (∀ db_name,
     call_add_exchange_uncertainty db_name None =
     add_exchange_uncertainty db_name F64.lit_0_4) ∧
  (∀ db_name percent,
     call_add_exchange_uncertainty db_name (Some percent) =
     add_exchange_uncertainty db_name percent) ∧
  (∀ (Model Methods Simplified : Type)
     (sobol_simplify_model : Model → Methods → nat → Simplified) model methods,
     run_gsa sobol_simplify_model model methods None =
       sobol_simplify_model model methods 200%nat ∧
     ∀ n, run_gsa sobol_simplify_model model methods (Some n) =
          sobol_simplify_model model methods n) ∧
  (∃ w1 w2,
     databases w1 = databases w2 ∧ registry w1 = registry w2 ∧
     (select_exchanges FG_DB F64.lit_0_4 w1).1 ≠ (select_exchanges FG_DB F64.lit_0_4 w2).1).
Proof.
  split_and!; [|done|done|done|].
  - intros db_name percent w res w' name p Hrun Hnone Hp.
    by destruct (add_exchange_uncertainty_registry _ _ _ _ _ Hrun)
      as [_ [? _]%(λ H, H name p Hnone Hp)].
  - exists Samples.calm, Samples.other. by vm_compute.
Qed.

Lemma C7_configuration_surface_witness :
  add_exchange_uncertainty FG_DB F64.lit_0_4 Samples.clash =
    (Raise DuplicateParameterError, Samples.clash_after_first) ∧
  registry Samples.clash !! "p_bg1" = None ∧
  registry Samples.clash_after_first !! "p_bg1" =
    Some (mkParamDef "p_bg1" TRIANGLE (F64.of_Z 1) (F64.of_Z 3) (F64.of_Z 2)) ∧
  F64.of_Z 1 = F64.mul F64.lit_0_5 (F64.of_Z 2) ∧
  F64.of_Z 3 = F64.mul F64.lit_1_5 (F64.of_Z 2).
Proof.
  split_and!; [reflexivity..| |].
  - apply (proj1 C7_configuration_surface FG_DB F64.lit_0_4 Samples.clash
             (Raise DuplicateParameterError) Samples.clash_after_first "p_bg1"
             (mkParamDef "p_bg1" TRIANGLE (F64.of_Z 1) (F64.of_Z 3) (F64.of_Z 2)));
      reflexivity.
  - apply (proj1 C7_configuration_surface FG_DB F64.lit_0_4 Samples.clash
             (Raise DuplicateParameterError) Samples.clash_after_first "p_bg1"
             (mkParamDef "p_bg1" TRIANGLE (F64.of_Z 1) (F64.of_Z 3) (F64.of_Z 2)));
      reflexivity.
Defined.

(** Against C7 as stated: were the distribution family an input, some call
    would create a parameter of each family; no call, in no state, creates
    a Normal one. *)
Lemma C7_distribution_is_not_an_input :
  ¬ (∀ distrib : DistributionType,
       ∃ db_name percent w res w' name p,
         add_exchange_uncertainty db_name percent w = (res, w') ∧
         registry w !! name = None ∧
         registry w' !! name = Some p ∧
         p_distribution p = distrib).
Proof.
  intros H.
  destruct (H NORMAL)
    as (db_name & percent & w & res & w' & name & p & Hrun & Hnone & Hp & Hd).
  destruct (add_exchange_uncertainty_registry _ _ _ _ _ Hrun)
    as [_ [[Ht _] _]%(λ H, H name p Hnone Hp)].
  congruence.
Qed.

(** ** Reporting: C8 *)




(** * Further properties of the script *)

(** ** What [add_exchange_uncertainty] leaves alone *)

Lemma imap_alter_ext {A B} (h : nat → A → B) (f : A → A) k (l : list A) :
  (∀ x, l !! k = Some x → h k (f x) = h k x) →
  imap h (alter f k l) = imap h l.
Proof.
  intros Hh. apply list_eq. intros i. rewrite !list_lookup_imap.
  destruct (decide (k = i)) as [->|Hne].
  - rewrite list_lookup_alter_eq. destruct (l !! i) as [x|] eqn:Hx; simpl; [|done].
    f_equal. by apply Hh.
  - by rewrite list_lookup_alter_ne.
Qed.

Lemma exchs_of_join db :
  exchs_of db =
  mjoin (imap (λ i act,
           mjoin (imap (λ j e, if decide (exc_type e ≠ "production") then [(i, j)] else [])
                    (act_exchanges act))) db).
Proof.
  unfold exchs_of, enumerate. rewrite bind_imap. f_equal.
  apply imap_ext. intros i act _. simpl. by rewrite bind_imap.
Qed.

Lemma exchs_of_db_set_amount exc v db :
  exchs_of (db_set_amount exc v db) = exchs_of db.
Proof.
  rewrite !exchs_of_join. unfold db_set_amount. f_equal.
  apply imap_alter_ext. intros act _. unfold act_alter; simpl. f_equal.
  by apply imap_alter_ext.
Qed.

Lemma lookup_exc_db_set_amount_shape exc v db exc' :
  option_Forall2 same_but_amount (lookup_exc (db_set_amount exc v db) exc') (lookup_exc db exc').
Proof.
  destruct (decide (exc = exc')) as [<-|Hne].
  - rewrite lookup_exc_db_set_amount_eq.
    destruct (lookup_exc db exc); constructor. by split.
  - rewrite lookup_exc_db_set_amount_ne by done.
    destruct (lookup_exc db exc'); constructor. by split.
Qed.

#[local] Instance same_but_amount_refl : Reflexive same_but_amount.
Proof. by intros e. Qed.
#[local] Instance same_but_amount_trans : Transitive same_but_amount.
Proof. intros e1 e2 e3 [??] [??]. split; congruence. Qed.





(** The loop on the proxies assigns amounts and nothing else. *)
Lemma assign_loop_shape l objs w res objs' w' :
  assign_loop l objs w = (res, objs', w') →
  exchs_of objs' = exchs_of objs ∧
  ∀ exc, option_Forall2 same_but_amount (lookup_exc objs' exc) (lookup_exc objs exc).
Proof.
  revert objs w. induction l as [|x l IH]; intros objs w.
  - intros [= <- <- <-]. split; [done|]. intros exc.
    destruct (lookup_exc objs exc); by constructor.
  - rewrite assign_loop_cons.
    destruct (assign_uncertainty x objs w) as [[objs1|err] w1] eqn:Hx.
    + apply assign_uncertainty_inv_ok in Hx as (e & v & _ & _ & _ & _ & -> & ->).
      intros [Helig Hshape]%IH. unfold exc_set_amount in *. split.
      * by rewrite Helig, exchs_of_db_set_amount.
      * intros exc.
        pose proof (lookup_exc_db_set_amount_shape x (VParam (param_name e)) objs exc) as H1.
        specialize (Hshape exc).
        destruct H1 as [e1 e2 H12|]; inversion Hshape; subst; constructor.
        by transitivity e1.
    + intros [= <- <- <-]. split; [done|]. intros exc.
      destruct (lookup_exc objs exc); by constructor.
Qed.

(** X14.  The script saves no Exchange object.  Whatever the outcome of
    the loop, every database is as it was before the call: the references
    that line 71 assigns live in the Exchange objects of the call alone.
    Those objects hold an exchange exactly where a row is, with the input
    and the type of the row, and list the same eligible exchanges; an
    object that differs from its row is one of a selected exchange, the
    row holds a number and the object the reference to the parameter
    named after its input. *)
Theorem assigned_references_are_not_saved db_name percent w selected w0 res objs w' :
  select_exchanges db_name percent w = (Ok selected, w0) →
  assign_loop selected (stored db_name w) w0 = (res, objs, w') →
  add_exchange_uncertainty db_name percent w = (res, w') ∧
  databases w' = databases w ∧
  exchs_of objs = exchs_of (stored db_name w') ∧
  (∀ exc, option_Forall2 same_but_amount
            (lookup_exc objs exc) (lookup_exc (stored db_name w') exc)) ∧
  (∀ exc e,
     lookup_exc objs exc = Some e →
     lookup_exc (stored db_name w') exc ≠ Some e →
     exc ∈ selected ∧
     ∃ e0 v, lookup_exc (stored db_name w') exc = Some e0 ∧
             exc_amount e0 = VNum v ∧
             e = mkExchange (exc_input e0) (exc_type e0)
                   (VParam ("p_" +:+ (exc_input e0).2))).
Proof.
  intros Hsel Hloop.
  assert (add_exchange_uncertainty db_name percent w = (res, w')) as Hrun
    by (by rewrite add_exchange_uncertainty_objects, Hsel, Hloop).
  rewrite (add_exchange_uncertainty_stored _ _ _ _ _ db_name Hrun).
  destruct (assign_loop_shape _ _ _ _ _ _ Hloop) as [Helig Hshape].
  split_and!; [done|by eapply add_exchange_uncertainty_databases|done|done|].
  apply select_exchanges_inv in Hsel as (g & -> & _ & Hsub).
  apply selected_NoDup in Hsub as Hnd.
  apply assign_loop_objects in Hloop as (pre & post & -> & _ & _ & _ & Hout & Hin); [|done].
  intros exc e He Hdiff.
  destruct (decide (exc ∈ pre)) as [Hpre|Hpre].
  - split; [apply elem_of_app; by left|].
    destruct (Hin exc Hpre) as (e0 & v & He0 & Hv & _ & _ & Hobj & _).
    exists e0, v. split_and!; [done..|]. unfold param_name in Hobj. congruence.
  - rewrite Hout in He by done. done.
Qed.

Lemma assigned_references_are_not_saved_witness :
  ∃ objs w',
    assign_loop [(0, 1); (2, 2)]%nat (stored FG_DB Samples.calm) (set_rng [] Samples.calm) =
      (Ok tt, objs, w') ∧
    databases w' = databases Samples.calm ∧
    lookup_exc objs (0, 1)%nat =
      Some (mkExchange (BG_DB, "bg1") "technosphere" (VParam "p_bg1")) ∧
    lookup_exc (stored FG_DB w') (0, 1)%nat =
      Some (mkExchange (BG_DB, "bg1") "technosphere" (VNum (F64.of_Z 2))).
Proof.
  set (objs := exc_set_amount (2, 2)%nat (VParam "p_fg2")
                 (exc_set_amount (0, 1)%nat (VParam "p_bg1") Samples.demo_fg)).
  set (w' := registered (Samples.technosphere FG_DB "fg2" 1) (F64.of_Z 1)
               (registered (Samples.technosphere BG_DB "bg1" 2) (F64.of_Z 2)
                  (set_rng [] Samples.calm))).
  assert (assign_loop [(0, 1); (2, 2)]%nat (stored FG_DB Samples.calm)
            (set_rng [] Samples.calm) = (Ok tt, objs, w')) as Hloop by reflexivity.
  exists objs, w'. split; [done|].
  destruct (assigned_references_are_not_saved FG_DB F64.lit_0_4 Samples.calm
              [(0, 1); (2, 2)]%nat (set_rng [] Samples.calm) (Ok tt) objs w' eq_refl Hloop)
    as (_ & Hdb & _ & _ & Hdiff).
  split; [exact Hdb|]. split; reflexivity.
Defined.

(** X3.  A failure of lines 60 and 61 changes nothing: when the count
    exceeds the number of eligible exchanges [random.sample] raises
    ValueError, when [int] cannot convert the product its exception
    (ValueError or OverflowError) escapes, and in both cases the state
    after the call is the state before it: no draw is consumed, nothing is
    registered, no amount is rewritten. *)
Theorem selection_failure_changes_nothing db_name percent w :
  (∀ k, n_uncertain (length (exchs_of (stored db_name w))) percent = Ok k →
        Z.of_nat (length (exchs_of (stored db_name w))) < k →
        add_exchange_uncertainty db_name percent w = (Raise ValueError, w)) ∧
  (∀ err, n_uncertain (length (exchs_of (stored db_name w))) percent = Raise err →
          add_exchange_uncertainty db_name percent w = (Raise err, w) ∧
          (err = ValueError ∨ err = OverflowError)) ∧
  (∀ err w', select_exchanges db_name percent w = (Raise err, w') →
             w' = w ∧ add_exchange_uncertainty db_name percent w = (Raise err, w) ∧
             (err = ValueError ∨ err = OverflowError)).
Proof.
  split_and!.
  - intros k Hk Hlt.
    rewrite add_exchange_uncertainty_unfold, select_exchanges_unfold, Hk.
    by rewrite random_sample_raise by lia.
  - intros err Hk. split; [|by eapply n_uncertain_raise].
    by rewrite add_exchange_uncertainty_unfold, select_exchanges_unfold, Hk.
  - intros err w' Hsel.
    pose proof (select_exchanges_inv_raise _ _ _ _ _ Hsel) as ->.
    split_and!; [done| |by eapply select_exchanges_raise].
    by rewrite add_exchange_uncertainty_unfold, Hsel.
Qed.

Lemma selection_failure_changes_nothing_witness :
  n_uncertain (length (exchs_of (stored FG_DB Samples.calm))) (F64.of_Z 3) = Ok 18 ∧
  add_exchange_uncertainty FG_DB (F64.of_Z 3) Samples.calm = (Raise ValueError, Samples.calm).
Proof.
  split; [reflexivity|].
  apply (proj1 (selection_failure_changes_nothing FG_DB (F64.of_Z 3) Samples.calm) 18).
  - reflexivity.
  - by vm_compute.
Defined.

Lemma for_each_parameterize_size db_name l w w' :
  for_each l (parameterize db_name) w = (Ok tt, w') →
  size (registry w') = (size (registry w) + length l)%nat.
Proof.
  revert w. induction l as [|exc l IH]; intros w.
  - intros [= <-]. simpl. lia.
  - rewrite for_each_cons.
    destruct (parameterize db_name exc w) as [[[]|err] w1] eqn:Hbody; [|discriminate].
    apply parameterize_inv_ok in Hbody as (e & v & _ & _ & _ & Hfresh & ->).
    intros ->%IH. unfold registered; simpl.
    rewrite map_size_insert_None by done. lia.
Qed.

(** X4.  A run that completes has registered exactly
    [max(1, int(len(exchs) * percent))] new parameters, a number between 1
    and the number of eligible exchanges, and kept all the parameters that
    were registered before. *)
Theorem completed_run_registers_count db_name percent w w' :
  add_exchange_uncertainty db_name percent w = (Ok tt, w') →
  ∃ k, n_uncertain (length (exchs_of (stored db_name w))) percent = Ok k ∧
       1 ≤ k ≤ Z.of_nat (length (exchs_of (stored db_name w))) ∧
       size (registry w') = (size (registry w) + Z.to_nat k)%nat ∧
       registry w ⊆ registry w'.
Proof.
  intros Hrun.
  pose proof (add_exchange_uncertainty_registry _ _ _ _ _ Hrun) as [Hkeep _].
  rewrite add_exchange_uncertainty_unfold in Hrun.
  destruct (select_exchanges db_name percent w) as [[selected|err] w0] eqn:Hsel; [|discriminate].
  apply select_exchanges_inv in Hsel as (g & -> & Hk & Hsub).
  exists (Z.of_nat (length selected)). split_and!; [done| | | |].
  - by eapply n_uncertain_ge_1.
  - apply submseteq_length in Hsub. lia.
  - apply for_each_parameterize_size in Hrun. simpl in Hrun. rewrite Hrun. lia.
  - apply map_subseteq_spec. intros name p. apply Hkeep.
Qed.

Lemma completed_run_registers_count_witness :
  ∃ w', add_exchange_uncertainty FG_DB F64.lit_0_4 Samples.calm = (Ok tt, w') ∧
        size (registry w') = 2%nat.
Proof.
  destruct (add_exchange_uncertainty FG_DB F64.lit_0_4 Samples.calm) as [res w'] eqn:Hrun.
  assert (res = Ok tt) as -> by (vm_compute in Hrun; congruence).
  exists w'. split; [done|].
  destruct (completed_run_registers_count FG_DB F64.lit_0_4 Samples.calm w' Hrun)
    as (k & Hk & _ & -> & _).
  vm_compute in Hk. by injection Hk as <-.
Defined.

(** ** The count of line 60 at the edges of [percent] *)

Lemma binary_round_aux_sign prec emax s m e l :
  has_sign s (binary_round_aux prec emax s m e l).
Proof.
  unfold binary_round_aux.
  destruct (shr_fexp _ _ m e l) as [mrs' e'].
  destruct (shr_fexp _ _ _ e' loc_Exact) as [mrs'' e''].
  destruct (shr_m mrs''); simpl; [done| |done].
  by destruct (_ <=? _).
Qed.

Lemma of_Z_sign (n : nat) : has_sign false (F64.of_Z (Z.of_nat n)).
Proof.
  unfold F64.of_Z, binary_normalize. destruct (Z.of_nat n) eqn:Hn; [done| |lia].
  unfold binary_round. destruct (shl_align _ _ _) as [mz ez].
  apply binary_round_aux_sign.
Qed.

Lemma trunc_negative m e : F64.trunc true m e ≤ 0.
Proof.
  unfold F64.trunc; simpl.
  assert (0 ≤ Z.shiftl (Z.pos m) e) by (apply Z.shiftl_nonneg; lia). lia.
Qed.

Lemma mul_not_positive len percent :
  not_positive percent = true →
  match F64.mul (F64.of_Z (Z.of_nat len)) percent with
  | S754_finite s _ _ => s = true
  | _ => True
  end.
Proof.
  intros Hp. pose proof (of_Z_sign len) as Hx.
  destruct (F64.of_Z (Z.of_nat len)) as [sx|sx| |sx mx ex];
    destruct percent as [sp|sp| |sp mp ep]; try discriminate; try done.
  simpl in Hx, Hp. subst sx sp. unfold F64.mul, SFmul.
  pose proof (binary_round_aux_sign F64.prec F64.emax (xorb false true)
                (Z.pos (mx * mp)) (ex + ep) loc_Exact) as Hs.
  by destruct (binary_round_aux _ _ _ _ _ _).
Qed.

Lemma n_uncertain_not_positive len percent k :
  not_positive percent = true → n_uncertain len percent = Ok k → k = 1.
Proof.
  intros Hp. unfold n_uncertain.
  pose proof (mul_not_positive len percent Hp) as Hs.
  destruct (F64.mul _ _) as [s|s| |s m e]; cbn [py_int]; try discriminate.
  - intros [= <-]. done.
  - subst s. intros [= <-]. pose proof (trunc_negative m e) as Ht.
    unfold F64.trunc, cond_Zopp in Ht. lia.
Qed.

(** X5.  The floor of [max(1, ...)]: with a [percent] that is zero or
    negative, a call that gets past line 61 has selected exactly one
    exchange. *)
Theorem non_positive_percent_selects_one db_name percent w selected w0 :
  not_positive percent = true →
  select_exchanges db_name percent w = (Ok selected, w0) →
  length selected = 1%nat.
Proof.
  intros Hp (g & _ & Hk & _)%select_exchanges_inv.
  apply n_uncertain_not_positive in Hk; [lia|done].
Qed.

Lemma non_positive_percent_selects_one_witness :
  not_positive (F64.neg F64.lit_0_4) = true ∧
  (select_exchanges FG_DB (F64.neg F64.lit_0_4) Samples.calm).1 = Ok [(0, 1)%nat] ∧
  length [(0, 1)%nat] = 1%nat.
Proof.
  split_and!; [reflexivity..|].
  apply (non_positive_percent_selects_one FG_DB (F64.neg F64.lit_0_4) Samples.calm
           [(0, 1)%nat] (set_rng [0%nat] Samples.calm)); reflexivity.
Defined.

(** ** Exact binary64 arithmetic: integers below [2^53], powers of two *)

Section exact.
Implicit Types (p m k : positive) (e j : Z).

Lemma digits2_pos_lower p : 2 ^ (Z.pos (digits2_pos p) - 1) ≤ Z.pos p.
Proof.
  induction p as [p IH|p IH|]; simpl digits2_pos; [| |done].
  - rewrite Pos2Z.inj_succ.
    replace (Z.succ (Z.pos (digits2_pos p)) - 1) with (Z.succ (Z.pos (digits2_pos p) - 1)) by lia.
    rewrite Z.pow_succ_r by lia. lia.
  - rewrite Pos2Z.inj_succ.
    replace (Z.succ (Z.pos (digits2_pos p)) - 1) with (Z.succ (Z.pos (digits2_pos p) - 1)) by lia.
    rewrite Z.pow_succ_r by lia. lia.
Qed.

Lemma digits2_pos_le_53 p : Z.pos p < 2 ^ 53 → Z.pos (digits2_pos p) ≤ 53.
Proof.
  intros Hp. destruct (decide (Z.pos (digits2_pos p) ≤ 53)) as [|Hgt]; [done|].
  pose proof (digits2_pos_lower p) as Hlow.
  assert (2 ^ 53 ≤ 2 ^ (Z.pos (digits2_pos p) - 1)) by (apply Z.pow_le_mono_r; lia).
  lia.
Qed.

Lemma digits2_pos_iter_xO p k :
  digits2_pos (Pos.iter xO p k) = (digits2_pos p + k)%positive.
Proof.
  induction k as [|k IH] using Pos.peano_ind.
  - simpl. lia.
  - rewrite Pos.iter_succ. simpl. rewrite IH. lia.
Qed.

Lemma Zpos_iter_xO p k : Z.pos (Pos.iter xO p k) = Z.shiftl (Z.pos p) (Z.pos k).
Proof.
  rewrite Z.shiftl_mul_pow2 by lia.
  induction k as [|k IH] using Pos.peano_ind.
  - simpl. lia.
  - rewrite Pos.iter_succ, Pos2Z.inj_succ, Z.pow_succ_r by lia.
    rewrite Pos2Z.inj_xO, IH. lia.
Qed.

Lemma shr_fexp_canonical m e :
  digits2_pos m = 53%positive → -1074 ≤ e →
  shr_fexp 53 1024 (Z.pos m) e loc_Exact = (Build_shr_record (Z.pos m) false false, e).
Proof.
  intros Hm He. unfold shr_fexp, fexp, emin. simpl Zdigits2. rewrite Hm.
  replace (Z.max (53 + e - 53) (3 - 1024 - 53) - e) with 0 by lia. done.
Qed.

(** A 53-bit mantissa at an exponent in range is not rounded. *)
Lemma binary_round_aux_canonical s m e :
  digits2_pos m = 53%positive → -1074 ≤ e ≤ 971 →
  binary_round_aux 53 1024 s (Z.pos m) e loc_Exact = S754_finite s m e.
Proof.
  intros Hm He. unfold binary_round_aux.
  rewrite shr_fexp_canonical by (done || lia). simpl.
  rewrite shr_fexp_canonical by (done || lia). simpl.
  by rewrite (proj2 (Z.leb_le _ _)) by lia.
Qed.

(** [float(n)] is exact for a positive integer of at most 53 bits. *)
Lemma of_Z_exact p :
  Z.pos p < 2 ^ 53 →
  ∃ m, F64.of_Z (Z.pos p) = S754_finite false m (Z.pos (digits2_pos p) - 53) ∧
       digits2_pos m = 53%positive ∧
       Z.pos m = Z.shiftl (Z.pos p) (53 - Z.pos (digits2_pos p)).
Proof.
  intros Hd%digits2_pos_le_53.
  unfold F64.of_Z, binary_normalize, binary_round, shl_align, fexp, emin, F64.prec, F64.emax.
  replace (Z.max (Z.pos (digits2_pos p) + 0 - 53) (3 - 1024 - 53))
    with (Z.pos (digits2_pos p) - 53) by lia.
  destruct (Z.pos (digits2_pos p) - 53 - 0) as [|k|k] eqn:Hk; [|lia|].
  - assert (digits2_pos p = 53%positive) as Hp by lia.
    exists p. rewrite Hp. split_and!; [|done|done].
    by apply binary_round_aux_canonical.
  - assert (digits2_pos (Pos.iter xO p k) = 53%positive) as Hm
      by (rewrite digits2_pos_iter_xO; lia).
    exists (Pos.iter xO p k). split_and!; [|done|].
    + apply binary_round_aux_canonical; [done|lia].
    + rewrite Zpos_iter_xO. f_equal. lia.
Qed.

Lemma shr_52 m :
  SpecFloat.iter_pos shr_1 52%positive (Build_shr_record (Z.pos (m * 2 ^ 52)) false false) =
  Build_shr_record (Z.pos m) false false.
Proof. rewrite Pos.mul_comm. by vm_compute. Qed.

Lemma digits2_pos_mul_52 m :
  digits2_pos (m * 2 ^ 52) = (digits2_pos m + 52)%positive.
Proof.
  rewrite <- digits2_pos_iter_xO. f_equal.
  rewrite Pos.mul_comm. by vm_compute.
Qed.

(** Multiplying by a power of two only moves the exponent. *)
Lemma mul_two_to m e j :
  digits2_pos m = 53%positive → -1074 ≤ e + j ≤ 971 →
  F64.mul (S754_finite false m e) (two_to j) = S754_finite false m (e + j).
Proof.
  intros Hm He. unfold F64.mul, SFmul, two_to, binary_round_aux, F64.prec, F64.emax.
  assert (shr_fexp 53 1024 (Z.pos (m * 2 ^ 52)) (e + (j - 52)) loc_Exact =
          (Build_shr_record (Z.pos m) false false, e + j)) as ->.
  { unfold shr_fexp, fexp, emin. simpl Zdigits2. rewrite digits2_pos_mul_52, Hm.
    replace (Z.max (Z.pos (53 + 52) + (e + (j - 52)) - 53) (3 - 1024 - 53) - (e + (j - 52)))
      with 52 by lia.
    unfold shr. simpl shr_record_of_loc. rewrite shr_52. f_equal. lia. }
  simpl. rewrite shr_fexp_canonical by (done || lia). simpl.
  by rewrite (proj2 (Z.leb_le _ _)) by lia.
Qed.

Lemma n_uncertain_two_to (len : nat) j :
  (0 < len)%nat → Z.of_nat len < 2 ^ 53 → -1000 ≤ j ≤ 900 →
  n_uncertain len (two_to j) = Ok (Z.max 1 (Z.shiftl (Z.of_nat len) j)).
Proof.
  intros Hpos Hlen Hj. unfold n_uncertain.
  destruct (Z.of_nat len) as [|p|p] eqn:Hp; [lia| |lia].
  destruct (of_Z_exact p Hlen) as (m & -> & Hm & Hmp).
  pose proof (digits2_pos_le_53 p Hlen) as Hd.
  rewrite mul_two_to by (done || lia).
  cbn [py_int]. unfold F64.trunc, cond_Zopp. rewrite Hmp.
  rewrite Z.shiftl_shiftl by lia. do 3 f_equal. lia.
Qed.
End exact.

Lemma two_to_literals :
  two_to 0 = F64.of_Z 1 ∧ two_to 1 = F64.of_Z 2 ∧ two_to (-1) = F64.lit_0_5.
Proof. by vm_compute. Qed.

(** X6.  For a fraction that is a power of two, [percent = 2^j] with
    [j <= 0] (1.0, 0.5, 0.25, ...), and a database with at least one and
    fewer than [2^53] eligible exchanges, the binary64 product is exact:
    the selection succeeds and has [max(1, len(exchs) // 2^(-j))]
    exchanges. *)
Theorem power_of_two_percent_count db_name w j :
  (0 < length (exchs_of (stored db_name w)))%nat →
  Z.of_nat (length (exchs_of (stored db_name w))) < 2 ^ 53 →
  -1000 ≤ j ≤ 0 →
  ∃ selected g,
    select_exchanges db_name (two_to j) w = (Ok selected, set_rng g w) ∧
    Z.of_nat (length selected) =
      Z.max 1 (Z.of_nat (length (exchs_of (stored db_name w))) / 2 ^ (- j)).
Proof.
  intros Hpos Hlen Hj.
  set (len := length (exchs_of (stored db_name w))) in *.
  pose proof (n_uncertain_two_to len j Hpos Hlen ltac:(lia)) as Hk.
  assert (Z.shiftl (Z.of_nat len) j = Z.of_nat len / 2 ^ (- j)) as Hshift.
  { rewrite <- Z.shiftr_div_pow2 by lia. unfold Z.shiftr. by rewrite Z.opp_involutive. }
  rewrite Hshift in Hk.
  assert (Z.of_nat len / 2 ^ (- j) ≤ Z.of_nat len).
  { assert (0 < 2 ^ (- j)) by (apply Z.pow_pos_nonneg; lia).
    apply Z.div_le_upper_bound; [done|]. nia. }
  destruct (select_exchanges_ok db_name (two_to j) w _ Hk) as (selected & g & Hsel & Hn & _).
  { fold len. lia. }
  by exists selected, g.
Qed.

Lemma power_of_two_percent_count_witness :
  ∃ selected g,
    select_exchanges FG_DB F64.lit_0_5 Samples.calm = (Ok selected, set_rng g Samples.calm) ∧
    Z.of_nat (length selected) = 3.
Proof.
  destruct (power_of_two_percent_count FG_DB Samples.calm (-1))
    as (selected & g & Hsel & Hlen).
  - vm_compute. lia.
  - by vm_compute.
  - lia.
  - exists selected, g. split; [exact Hsel|]. rewrite Hlen. by vm_compute.
Defined.

(** X7.  [percent = 1.0] selects every eligible exchange: the selection is
    a permutation of [exchs]. *)
Theorem percent_one_selects_every_eligible_exchange db_name w :
  (0 < length (exchs_of (stored db_name w)))%nat →
  Z.of_nat (length (exchs_of (stored db_name w))) < 2 ^ 53 →
  ∃ selected g,
    select_exchanges db_name (F64.of_Z 1) w = (Ok selected, set_rng g w) ∧
    selected ≡ₚ exchs_of (stored db_name w).
Proof.
  intros Hpos Hlen.
  set (len := length (exchs_of (stored db_name w))) in *.
  pose proof (n_uncertain_two_to len 0 Hpos Hlen ltac:(lia)) as Hk.
  rewrite Z.shiftl_0_r in Hk.
  replace (two_to 0) with (F64.of_Z 1) in Hk by (by vm_compute).
  destruct (select_exchanges_ok db_name (F64.of_Z 1) w _ Hk) as (selected & g & Hsel & Hn & Hsub).
  { fold len. lia. }
  assert (selected ≡ₚ exchs_of (stored db_name w)) as Hperm.
  { apply submseteq_length_Permutation; [done|]. fold len. lia. }
  by exists selected, g.
Qed.

Lemma percent_one_selects_every_eligible_exchange_witness :
  ∃ selected g,
    select_exchanges FG_DB (F64.of_Z 1) Samples.w_four =
      (Ok selected, set_rng g Samples.w_four) ∧
    selected ≡ₚ [(0, 1); (0, 2); (1, 1); (1, 2)]%nat.
Proof.
  destruct (percent_one_selects_every_eligible_exchange FG_DB Samples.w_four)
    as (selected & g & Hsel & Hperm).
  - vm_compute. lia.
  - by vm_compute.
  - by exists selected, g.
Defined.

(** X8.  [percent = 2^j] with [j >= 1] (2.0, 4.0, ...) asks for more
    exchanges than there are: on every database with at least one eligible
    exchange the call raises ValueError and changes nothing. *)
Theorem percent_two_or_more_raises db_name w j :
  (0 < length (exchs_of (stored db_name w)))%nat →
  Z.of_nat (length (exchs_of (stored db_name w))) < 2 ^ 53 →
  1 ≤ j ≤ 900 →
  add_exchange_uncertainty db_name (two_to j) w = (Raise ValueError, w).
Proof.
  intros Hpos Hlen Hj.
  set (len := length (exchs_of (stored db_name w))) in *.
  pose proof (n_uncertain_two_to len j Hpos Hlen ltac:(lia)) as Hk.
  rewrite Z.shiftl_mul_pow2 in Hk by lia.
  rewrite add_exchange_uncertainty_unfold, select_exchanges_unfold. fold len.
  rewrite Hk. rewrite random_sample_raise; [done|]. fold len.
  assert (2 ≤ 2 ^ j) by (change 2 with (2 ^ 1) at 1; apply Z.pow_le_mono_r; lia).
  nia.
Qed.

Lemma percent_two_or_more_raises_witness :
  add_exchange_uncertainty FG_DB (F64.of_Z 2) Samples.calm = (Raise ValueError, Samples.calm).
Proof.
  apply (percent_two_or_more_raises FG_DB Samples.calm 1).
  - vm_compute. lia.
  - by vm_compute.
  - lia.
Defined.

Lemma mul_nan_r x : F64.mul x S754_nan = S754_nan.
Proof. by destruct x. Qed.

(** X9.  A [percent] that is not finite never selects: NaN makes
    [int] raise ValueError on every database, an infinity makes it raise
    OverflowError when there is an eligible exchange, and the state is
    unchanged. *)
Theorem non_finite_percent_raises db_name w :
  add_exchange_uncertainty db_name S754_nan w = (Raise ValueError, w) ∧
  (∀ s, (0 < length (exchs_of (stored db_name w)))%nat →
        Z.of_nat (length (exchs_of (stored db_name w))) < 2 ^ 53 →
        add_exchange_uncertainty db_name (S754_infinity s) w = (Raise OverflowError, w)).
Proof.
  split.
  - rewrite add_exchange_uncertainty_unfold, select_exchanges_unfold.
    unfold n_uncertain. by rewrite mul_nan_r.
  - intros s Hpos Hlen.
    rewrite add_exchange_uncertainty_unfold, select_exchanges_unfold.
    unfold n_uncertain.
    destruct (Z.of_nat (length (exchs_of (stored db_name w)))) as [|p|p] eqn:Hp; [lia| |lia].
    by destruct (of_Z_exact p Hlen) as (m & -> & _).
Qed.

Lemma non_finite_percent_raises_witness :
  add_exchange_uncertainty FG_DB (S754_infinity false) Samples.calm =
    (Raise OverflowError, Samples.calm).
Proof.
  apply (proj2 (non_finite_percent_raises FG_DB Samples.calm) false).
  - vm_compute. lia.
  - by vm_compute.
Defined.


(** ** The report *)

Lemma impact_block_param_line i lambd :
  impact_block i lambd = ImpactLine i :: (param_line <$> ranked_items lambd).
Proof. unfold impact_block. f_equal. apply list_fmap_ext. by intros _ [name s1] _. Qed.

Lemma report_from_cons k lambd simplified :
  report_from k (lambd :: simplified) =
  impact_block k lambd ++ report_from (S k) simplified.
Proof.
  unfold report_from. simpl. rewrite Nat.add_0_r.
  do 2 f_equal. apply (f_equal mjoin), imap_ext.
  intros i x _. simpl. f_equal. lia.
Qed.

Lemma print_top_parameters_report simplified :
  print_top_parameters simplified = report_from 0 simplified.
Proof. by rewrite print_top_parameters_unfold. Qed.

Lemma report_from_app k l1 l2 :
  report_from k (l1 ++ l2) = report_from k l1 ++ report_from (k + length l1) l2.
Proof.
  revert k. induction l1 as [|lambd l1 IH]; intros k.
  - cbn [length app]. by rewrite Nat.add_0_r.
  - rewrite <- app_comm_cons, !report_from_cons, IH, <- app_assoc. cbn [length].
    by replace (k + S (length l1))%nat with (S k + length l1)%nat by lia.
Qed.

Lemma shift_impact_report j k simplified :
  shift_impact j <$> report_from k simplified = report_from (j + k) simplified.
Proof.
  revert k. induction simplified as [|lambd l IH]; intros k; [done|].
  rewrite !report_from_cons, fmap_app, IH. f_equal; [|f_equal; lia].
  rewrite !impact_block_param_line. simpl. f_equal.
  rewrite <- list_fmap_compose. apply list_fmap_ext. by intros _ [name s1] _.
Qed.

Lemma report_from_Permutation k simplified :
  report_from k simplified ≡ₚ
  (ImpactLine <$> seq k (length simplified)) ++
  (simplified ≫= λ lambd, param_line <$> sobols lambd).
Proof.
  revert k. induction simplified as [|lambd l IH]; intros k; [done|].
  rewrite report_from_cons, impact_block_param_line, IH, bind_cons.
  cbn [length seq fmap list_fmap app]. apply perm_skip.
  unfold ranked_items. rewrite py_sorted_Permutation.
  apply Permutation_app_swap_app.
Qed.

Lemma filter_header_param_lines (l : list (string * float)) :
  filter (λ x, is_header x) (param_line <$> l) = [].
Proof.
  induction l as [|x l IH]; [done|].
  rewrite fmap_cons, filter_cons_False; [done|]. simpl. tauto.
Qed.

Lemma report_from_headers k simplified :
  filter (λ x, is_header x) (report_from k simplified) =
  ImpactLine <$> seq k (length simplified).
Proof.
  revert k. induction simplified as [|lambd l IH]; intros k; [done|].
  rewrite report_from_cons, impact_block_param_line, filter_app, IH.
  rewrite filter_cons_True by done. by rewrite filter_header_param_lines.
Qed.

(** X10.  [print_top_parameters] loses and invents nothing, whatever the
    indices (NaN included): its lines are, up to order, one header per
    impact and one line per entry of each [sobols] mapping; the headers
    appear in the order of [simplified], numbered from 0; the number of
    lines is the number of impacts plus the number of entries. *)
Theorem print_top_parameters_prints_everything simplified :
  print_top_parameters simplified ≡ₚ
    (ImpactLine <$> seq 0 (length simplified)) ++
    (simplified ≫= λ lambd, param_line <$> sobols lambd) ∧
  filter (λ x, is_header x) (print_top_parameters simplified) =
    ImpactLine <$> seq 0 (length simplified) ∧
  length (print_top_parameters simplified) =
    (length simplified + sum_list_with (λ lambd, length (sobols lambd)) simplified)%nat.
Proof.
  rewrite print_top_parameters_report. split_and!.
  - apply report_from_Permutation.
  - apply report_from_headers.
  - rewrite report_from_Permutation, length_app, length_fmap, length_seq. f_equal.
    induction simplified as [|lambd l IH]; [done|].
    rewrite bind_cons, length_app, length_fmap, IH. done.
Qed.

(** X11.  The report of a concatenation is the report of the first list
    followed by the report of the second, whose impact numbers start where
    the first list ends. *)
Theorem print_top_parameters_app l1 l2 :
  print_top_parameters (l1 ++ l2) =
  print_top_parameters l1 ++ (shift_impact (length l1) <$> print_top_parameters l2).
Proof.
  rewrite !print_top_parameters_report, report_from_app, shift_impact_report.
  simpl. by rewrite Nat.add_0_r.
Qed.






